(** * openraildata-darwin: the feed-ingestion pipeline of [lib/darwin.js]

    A shallow embedding of [replaceKeys], [getMessage] and the handlers that
    [Darwin.connect] installs, together with the JavaScript built-ins they
    rely on ([JSON.stringify], [String.prototype.replace] with a global
    regular expression, [JSON.parse], property reads, [EventEmitter.emit]).

    Strings are sequences of 8-bit code units ([string] of the Standard
    Library); numbers are carried by their decimal literal, the text that
    [Number.prototype.toString] prints and [JSON.parse] reads back. *)

From Stdlib Require Import String Ascii List Bool Arith NArith Lia.
Import ListNotations.

Open Scope list_scope.
Open Scope string_scope.

(** ** JavaScript values *)

Module JS.

(** A number: finite (carried by its literal), [NaN] or an infinity. *)
Inductive number : Type :=
| Finite (lit : string)
| NaN
| Infinity (negative : bool).

(** An [Error] object, as thrown by the engine or by a collaborator. *)
Record error : Type := Error {
  error_name : string;
  error_message : string;
  error_stack : string
}.

(** Values.  An object is the ordered list of its own enumerable properties. *)
#[warnings="-register-all"]
Inductive value : Type :=
| VUndefined
| VNull
| VBool (b : bool)
| VNum (n : number)
| VStr (s : string)
| VArr (elements : list value)
| VObj (properties : list (string * value))
| VError (e : error).

(** Outcome of an expression that may throw. *)
Definition result (A : Type) : Type := (error + A)%type.

Definition dq : ascii := "034"%char.
Definition backslash : ascii := "092"%char.

Definition is_digit (c : ascii) : bool :=
  (48 <=? nat_of_ascii c)%nat && (nat_of_ascii c <=? 57)%nat.

(** The error an engine raises when a property is read from [undefined] or
    [null]; the frames of the stack are not modelled. *)
Definition TypeError (msg : string) : error :=
  {| error_name := "TypeError"; error_message := msg;
     error_stack := "TypeError: " ++ msg |}.

Definition SyntaxError (msg : string) : error :=
  {| error_name := "SyntaxError"; error_message := msg;
     error_stack := "SyntaxError: " ++ msg |}.

(** How the engine names the base of a failed property read. *)
Definition type_name (v : value) : string :=
  match v with
  | VUndefined => "undefined"
  | VNull => "null"
  | _ => "object"
  end.

(** Own property lookup. *)
Fixpoint lookup (k : string) (props : list (string * value)) : option value :=
  match props with
  | [] => None
  | (k', v) :: rest => if String.eqb k k' then Some v else lookup k rest
  end.

(** [base.k]: a property read.  Reading from [undefined] or [null] throws;
    reading a name an object does not own gives [undefined].  Inherited
    properties and the indices and [length] of arrays and strings are not
    modelled: no name read by this program is one of them. *)
Definition get (base : value) (k : string) : result value :=
  match base with
  | VUndefined | VNull =>
      inl (TypeError ("Cannot read property '" ++ k ++ "' of " ++ type_name base))
  | VObj props =>
      match lookup k props with
      | Some v => inr v
      | None => inr VUndefined
      end
  | VError e =>
      if String.eqb k "name" then inr (VStr (error_name e))
      else if String.eqb k "message" then inr (VStr (error_message e))
      else if String.eqb k "stack" then inr (VStr (error_stack e))
      else inr VUndefined
  | _ => inr VUndefined
  end.

(** [v === lit] for a string literal. *)
Definition strict_eq_string (v : value) (lit : string) : bool :=
  match v with
  | VStr s => String.eqb s lit
  | _ => false
  end.

(** [ToBoolean]. *)
Definition to_boolean (v : value) : bool :=
  match v with
  | VUndefined | VNull => false
  | VBool b => b
  | VNum (Finite lit) => negb (String.eqb lit "0" || String.eqb lit "-0")
  | VNum NaN => false
  | VNum (Infinity _) => true
  | VStr EmptyString => false
  | VStr _ => true
  | VArr _ | VObj _ | VError _ => true
  end.

(** [String(value)] ([ToString]). *)
Fixpoint to_string (v : value) : string :=
  match v with
  | VUndefined => "undefined"
  | VNull => "null"
  | VBool true => "true"
  | VBool false => "false"
  | VNum (Finite lit) => lit
  | VNum NaN => "NaN"
  | VNum (Infinity false) => "Infinity"
  | VNum (Infinity true) => "-Infinity"
  | VStr s => s
  | VArr l =>
      String.concat ","
        (map (fun x => match x with
                       | VUndefined | VNull => EmptyString
                       | _ => to_string x
                       end) l)
  | VObj _ => "[object Object]"
  | VError e =>
      match error_message e with
      | EmptyString => error_name e
      | m => error_name e ++ ": " ++ m
      end
  end.

End JS.

Import JS.

(** ** [JSON.stringify], [JSON.parse] *)

Module JSON.

Definition hex_digit (n : nat) : ascii :=
  if (n <? 10)%nat then ascii_of_nat (48 + n) else ascii_of_nat (87 + n).

(** [QuoteJSONString]: the quote and the backslash are escaped, control
    characters get their short escape or a [\u00XX] escape. *)
Definition escape_char (c : ascii) : string :=
  let n := nat_of_ascii c in
  if Ascii.eqb c dq then String backslash (String dq EmptyString)
  else if Ascii.eqb c backslash then String backslash (String backslash EmptyString)
  else if (n =? 8)%nat then String backslash "b"
  else if (n =? 12)%nat then String backslash "f"
  else if (n =? 10)%nat then String backslash "n"
  else if (n =? 13)%nat then String backslash "r"
  else if (n =? 9)%nat then String backslash "t"
  else if (n <? 32)%nat then
    String backslash
      (String "u" (String "0" (String "0"
         (String (hex_digit (n / 16)) (String (hex_digit (n mod 16)) EmptyString)))))
  else String c EmptyString.

Fixpoint escape (s : string) : string :=
  match s with
  | EmptyString => EmptyString
  | String c rest => escape_char c ++ escape rest
  end.

Definition quote (s : string) : string :=
  String dq (escape s ++ String dq EmptyString).

(** [SerializeJSONProperty]: [None] stands for [undefined].  An array prints
    [null] for an element that has no serialization, an object leaves such a
    property out; a number that is not finite prints [null]; an [Error] has
    no enumerable property of its own. *)
Fixpoint stringify (v : value) : option string :=
  match v with
  | VUndefined => None
  | VNull => Some "null"
  | VBool true => Some "true"
  | VBool false => Some "false"
  | VNum (Finite lit) => Some lit
  | VNum _ => Some "null"
  | VStr s => Some (quote s)
  | VArr l =>
      Some ("[" ++ String.concat ","
                     (map (fun x => match stringify x with
                                    | Some t => t
                                    | None => "null"
                                    end) l) ++ "]")
  | VObj props =>
      Some ("{" ++ String.concat ","
                     ((fix members (ps : list (string * value)) : list string :=
                         match ps with
                         | [] => []
                         | (k, x) :: rest =>
                             match stringify x with
                             | Some t => (quote k ++ ":" ++ t) :: members rest
                             | None => members rest
                             end
                         end) props) ++ "}")
  | VError _ => Some "{}"
  end.

(** *** Reading JSON text *)

Definition is_ws (c : ascii) : bool :=
  let n := nat_of_ascii c in
  ((n =? 32) || (n =? 9) || (n =? 10) || (n =? 13))%nat.

Fixpoint skip_ws (s : string) : string :=
  match s with
  | EmptyString => EmptyString
  | String c rest => if is_ws c then skip_ws rest else s
  end.

Fixpoint strip_prefix (p s : string) : option string :=
  match p with
  | EmptyString => Some s
  | String a p' =>
      match s with
      | EmptyString => None
      | String b s' => if Ascii.eqb a b then strip_prefix p' s' else None
      end
  end.

Definition hex_value (c : ascii) : option nat :=
  let n := nat_of_ascii c in
  if ((48 <=? n) && (n <=? 57))%nat then Some (n - 48)
  else if ((97 <=? n) && (n <=? 102))%nat then Some (n - 87)
  else if ((65 <=? n) && (n <=? 70))%nat then Some (n - 55)
  else None.

(** The code unit a [\uXXXX] escape names; [None] when a digit is not
    hexadecimal or the unit lies outside the 8-bit range of this model. *)
Definition unicode_escape (h1 h2 h3 h4 : ascii) : option ascii :=
  match hex_value h1, hex_value h2, hex_value h3, hex_value h4 with
  | Some a, Some b, Some c, Some d =>
      if ((a =? 0) && (b =? 0))%nat then Some (ascii_of_nat (16 * c + d)) else None
  | _, _, _, _ => None
  end.

Definition simple_escape (e : ascii) : option ascii :=
  if Ascii.eqb e dq then Some dq
  else if Ascii.eqb e backslash then Some backslash
  else if Ascii.eqb e "/" then Some "/"%char
  else if Ascii.eqb e "b" then Some "008"%char
  else if Ascii.eqb e "f" then Some "012"%char
  else if Ascii.eqb e "n" then Some "010"%char
  else if Ascii.eqb e "r" then Some "013"%char
  else if Ascii.eqb e "t" then Some "009"%char
  else None.

Definition cons_fst (c : ascii) (r : option (string * string)) : option (string * string) :=
  match r with
  | Some (s, rest) => Some (String c s, rest)
  | None => None
  end.

(** The characters of a string literal, from just after its opening quote
    up to its closing quote; gives the string and the text after it. *)
Fixpoint parse_string (s : string) : option (string * string) :=
  match s with
  | EmptyString => None
  | String c rest =>
      if Ascii.eqb c dq then Some (EmptyString, rest)
      else if Ascii.eqb c backslash then
        match rest with
        | EmptyString => None
        | String e rest' =>
            match simple_escape e with
            | Some ch => cons_fst ch (parse_string rest')
            | None =>
                if Ascii.eqb e "u" then
                  match rest' with
                  | String h1 (String h2 (String h3 (String h4 rest''))) =>
                      match unicode_escape h1 h2 h3 h4 with
                      | Some ch => cons_fst ch (parse_string rest'')
                      | None => None
                      end
                  | _ => None
                  end
                else None
            end
        end
      else if (nat_of_ascii c <? 32)%nat then None
      else cons_fst c (parse_string rest)
  end.

Definition is_number_char (c : ascii) : bool :=
  is_digit c || Ascii.eqb c "-" || Ascii.eqb c "+" || Ascii.eqb c "."
  || Ascii.eqb c "e" || Ascii.eqb c "E".

Fixpoint span_number (s : string) : string * string :=
  match s with
  | EmptyString => (EmptyString, EmptyString)
  | String c rest =>
      if is_number_char c
      then let (lit, rest') := span_number rest in (String c lit, rest')
      else (EmptyString, s)
  end.

Fixpoint skip_digits (s : string) : string :=
  match s with
  | EmptyString => EmptyString
  | String c rest => if is_digit c then skip_digits rest else s
  end.

Definition is_empty (s : string) : bool :=
  match s with
  | EmptyString => true
  | String _ _ => false
  end.

(** The JSON number grammar: an optional minus sign; then a zero, or a
    digit from 1 to 9 and any digits; then, optionally, a point and one or
    more digits; then, optionally, [e] or [E], an optional sign, and one or
    more digits. *)
Definition valid_exponent (s : string) : bool :=
  match s with
  | EmptyString => true
  | String e r =>
      (Ascii.eqb e "e" || Ascii.eqb e "E")
      && match r with
         | EmptyString => false
         | String g r' =>
             if Ascii.eqb g "+" || Ascii.eqb g "-" then
               match r' with
               | EmptyString => false
               | String d r'' => is_digit d && is_empty (skip_digits r'')
               end
             else is_digit g && is_empty (skip_digits r')
         end
  end.

Definition valid_fraction (s : string) : bool :=
  match s with
  | String c (String d r) =>
      if Ascii.eqb c "." then is_digit d && valid_exponent (skip_digits r)
      else valid_exponent s
  | _ => valid_exponent s
  end.

Definition valid_integer (s : string) : bool :=
  match s with
  | EmptyString => false
  | String c r =>
      if Ascii.eqb c "0" then valid_fraction r
      else is_digit c && valid_fraction (skip_digits r)
  end.

Definition valid_number (lit : string) : bool :=
  match lit with
  | String c r => if Ascii.eqb c "-" then valid_integer r else valid_integer lit
  | EmptyString => false
  end.

(** *** Building the object a JSON text denotes

    [CreateDataProperty] on an ordinary object: a key the object already
    owns keeps its place and takes the new value; a new key that is an array
    index goes among the indices, which come first in ascending order; any
    other new key goes last. *)

Fixpoint decimal_value (s : string) (acc : N) : option N :=
  match s with
  | EmptyString => Some acc
  | String c rest =>
      if is_digit c
      then decimal_value rest (10 * acc + N.of_nat (nat_of_ascii c - 48))%N
      else None
  end.

Definition array_index (k : string) : option N :=
  match k with
  | EmptyString => None
  | String c rest =>
      if Ascii.eqb c "0" && negb (is_empty rest) then None
      else match decimal_value k 0%N with
           | Some n => if (n <? 4294967295)%N then Some n else None
           | None => None
           end
  end.

Fixpoint has_key (k : string) (props : list (string * value)) : bool :=
  match props with
  | [] => false
  | (k', _) :: rest => String.eqb k k' || has_key k rest
  end.

Fixpoint overwrite (k : string) (v : value) (props : list (string * value))
  : list (string * value) :=
  match props with
  | [] => []
  | (k', v') :: rest =>
      if String.eqb k k' then (k', v) :: rest else (k', v') :: overwrite k v rest
  end.

Fixpoint insert_index (i : N) (k : string) (v : value) (props : list (string * value))
  : list (string * value) :=
  match props with
  | [] => [(k, v)]
  | (k', v') :: rest =>
      match array_index k' with
      | Some j => if (j <? i)%N then (k', v') :: insert_index i k v rest
                  else (k, v) :: props
      | None => (k, v) :: props
      end
  end.

Definition define_property (props : list (string * value)) (k : string) (v : value)
  : list (string * value) :=
  if has_key k props then overwrite k v props
  else match array_index k with
       | Some i => insert_index i k v props
       | None => (props ++ [(k, v)])%list
       end.

(** *** The parser *)

Fixpoint parse_value (fuel : nat) (s : string) {struct fuel} : option (value * string) :=
  match fuel with
  | O => None
  | S fuel' =>
      match skip_ws s with
      | EmptyString => None
      | String c rest =>
          if Ascii.eqb c "{" then
            match skip_ws rest with
            | String c' rest' =>
                if Ascii.eqb c' "}" then Some (VObj [], rest')
                else parse_members fuel' rest []
            | EmptyString => None
            end
          else if Ascii.eqb c "[" then
            match skip_ws rest with
            | String c' rest' =>
                if Ascii.eqb c' "]" then Some (VArr [], rest')
                else parse_elements fuel' rest []
            | EmptyString => None
            end
          else if Ascii.eqb c dq then
            match parse_string rest with
            | Some (str, rest') => Some (VStr str, rest')
            | None => None
            end
          else if Ascii.eqb c "n" then
            option_map (pair VNull) (strip_prefix "ull" rest)
          else if Ascii.eqb c "t" then
            option_map (pair (VBool true)) (strip_prefix "rue" rest)
          else if Ascii.eqb c "f" then
            option_map (pair (VBool false)) (strip_prefix "alse" rest)
          else
            let (lit, rest') := span_number (String c rest) in
            if valid_number lit then Some (VNum (Finite lit), rest') else None
      end
  end

with parse_elements (fuel : nat) (s : string) (acc : list value) {struct fuel}
  : option (value * string) :=
  match fuel with
  | O => None
  | S fuel' =>
      match parse_value fuel' s with
      | None => None
      | Some (v, rest) =>
          match skip_ws rest with
          | String c rest' =>
              if Ascii.eqb c "," then parse_elements fuel' rest' (acc ++ [v])%list
              else if Ascii.eqb c "]" then Some (VArr (acc ++ [v])%list, rest')
              else None
          | EmptyString => None
          end
      end
  end

with parse_members (fuel : nat) (s : string) (acc : list (string * value)) {struct fuel}
  : option (value * string) :=
  match fuel with
  | O => None
  | S fuel' =>
      match skip_ws s with
      | String q s1 =>
          if Ascii.eqb q dq then
            match parse_string s1 with
            | None => None
            | Some (k, s2) =>
                match skip_ws s2 with
                | String c s3 =>
                    if Ascii.eqb c ":" then
                      match parse_value fuel' s3 with
                      | None => None
                      | Some (v, s4) =>
                          match skip_ws s4 with
                          | String c' s5 =>
                              if Ascii.eqb c' ","
                              then parse_members fuel' s5 (define_property acc k v)
                              else if Ascii.eqb c' "}"
                              then Some (VObj (define_property acc k v), s5)
                              else None
                          | EmptyString => None
                          end
                      end
                    else None
                | EmptyString => None
                end
            end
          else None
      | EmptyString => None
      end
  end.

(** [JSON.parse]: one value, with nothing but white space after it; [None]
    stands for the [SyntaxError] it throws. *)
Definition parse (text : string) : option value :=
  match parse_value (S (String.length text)) text with
  | Some (v, rest) => if is_empty (skip_ws rest) then Some v else None
  | None => None
  end.

End JSON.

(** ** [String.prototype.replace] with a global regular expression *)

Module RegExp.

(** A pattern made of one character class per position. *)
Definition pattern : Type := list (ascii -> bool).

(** Does the pattern match at the head of [s]? *)
Fixpoint matches (p : pattern) (s : string) : bool :=
  match p with
  | [] => true
  | cls :: p' =>
      match s with
      | EmptyString => false
      | String c rest => cls c && matches p' rest
      end
  end.

Definition literal (s : string) : pattern :=
  map Ascii.eqb (list_ascii_of_string s).

(** [s.replace(/p/g, replacement)]: the text is scanned from the left; where
    the pattern matches, the replacement is written and the scan resumes
    after the match; elsewhere the character is copied.  [skip] counts the
    characters of the current match still to be passed over. *)
Fixpoint replace_from (p : pattern) (replacement : string) (skip : nat) (s : string)
  : string :=
  match s with
  | EmptyString => EmptyString
  | String c rest =>
      match skip with
      | S k => replace_from p replacement k rest
      | O =>
          if matches p s
          then match List.length p with
               | S k => replacement ++ replace_from p replacement k rest
               | O => String c (replace_from p replacement 0 rest)
               end
          else String c (replace_from p replacement 0 rest)
      end
  end.

Definition replace (s : string) (p : pattern) (replacement : string) : string :=
  replace_from p replacement 0 s.

End RegExp.

(** ** [replaceKeys] *)

(** The first regular expression: a quote, [ns3:Location], a quote. *)
Definition location_regexp : RegExp.pattern :=
  Ascii.eqb dq :: (RegExp.literal "ns3:Location" ++ [Ascii.eqb dq])%list.

Definition location_replacement : string :=
  String dq ("locations" ++ String dq EmptyString).

(** The second regular expression: a quote, [ns], one digit, a colon. *)
Definition namespace_regexp : RegExp.pattern :=
  [Ascii.eqb dq; Ascii.eqb "n"; Ascii.eqb "s"; is_digit; Ascii.eqb ":"].

Definition namespace_replacement : string := String dq EmptyString.

Definition replaceKeys (jsonObj : value) : result value :=
  match JSON.stringify jsonObj with
  | None => inl (TypeError "Cannot read property 'replace' of undefined")
  | Some jsonString =>
      let jsonString :=
        RegExp.replace
          (RegExp.replace jsonString location_regexp location_replacement)
          namespace_regexp namespace_replacement in
      match JSON.parse jsonString with
      | Some v => inr v
      | None => inl (SyntaxError "Unexpected token in JSON")
      end
  end.

(** ** What [replaceKeys] computes, as a transformation of the tree *)

Module Transform.

(** The first [replace] seen from inside one string: the pattern ends with
    a quote, so within the serialized string it can only match at its end,
    from the opening quote (the string is [ns3:Location]) or from an escaped
    inner quote (the string ends with a quote and [ns3:Location]). *)
Fixpoint rename_location_tail (s : string) : string :=
  match s with
  | EmptyString => EmptyString
  | String c rest =>
      if Ascii.eqb c dq && String.eqb rest "ns3:Location"
      then String dq "locations"
      else String c (rename_location_tail rest)
  end.

Definition rename_location (s : string) : string :=
  if String.eqb s "ns3:Location" then "locations" else rename_location_tail s.

(** The second [replace] seen from inside one string: [ns], a digit and a
    colon are dropped at the head of the string and after every quote in
    it. *)
Definition strip_namespace (s : string) : string :=
  match RegExp.replace (String dq s) namespace_regexp namespace_replacement with
  | String _ rest => rest
  | EmptyString => EmptyString
  end.

(** Both passes. *)
Definition rewrite (s : string) : string :=
  strip_namespace (rename_location s).

(** [f] applied to every string of the tree: the keys and the string values. *)
Fixpoint map_strings (f : string -> string) (v : value) : value :=
  match v with
  | VStr s => VStr (f s)
  | VArr l => VArr (map (map_strings f) l)
  | VObj props =>
      VObj (map (fun kx : string * value => (f (fst kx), map_strings f (snd kx))) props)
  | _ => v
  end.

(** The tree [JSON.parse] reads back from what [JSON.stringify] prints:
    [undefined] elements and numbers that are not finite come back as
    [null], [undefined] properties are gone, the properties of an object are
    defined one after the other. *)
Fixpoint reparsed (v : value) : value :=
  match v with
  | VUndefined => VNull
  | VNum (Finite lit) => VNum (Finite lit)
  | VNum _ => VNull
  | VArr l => VArr (map reparsed l)
  | VObj props =>
      VObj ((fix build (ps acc : list (string * value)) : list (string * value) :=
               match ps with
               | [] => acc
               | (k, x) :: rest =>
                   match x with
                   | VUndefined => build rest acc
                   | _ => build rest (JSON.define_property acc k (reparsed x))
                   end
               end) props [])
  | VError _ => VObj []
  | _ => v
  end.

(** [replaceKeys] as a transformation of the tree: every string of the tree,
    key or value, is rewritten, and the tree is read back. *)
Definition transformed (v : value) : value :=
  reparsed (map_strings rewrite v).

(** What the specification asks of the transform layer, in its words: the
    key [ns3:Location] becomes [locations], any other key loses its [ns],
    digit and colon, at every depth, and all else is preserved. *)
Definition rename_key (k : string) : string :=
  if String.eqb k "ns3:Location" then "locations"
  else match k with
       | String n (String s (String d (String c rest))) =>
           if Ascii.eqb n "n" && Ascii.eqb s "s" && is_digit d && Ascii.eqb c ":"
           then rest else k
       | _ => k
       end.

Fixpoint rename_keys (v : value) : value :=
  match v with
  | VArr l => VArr (map rename_keys l)
  | VObj props =>
      VObj (map (fun kx : string * value => (rename_key (fst kx), rename_keys (snd kx))) props)
  | _ => v
  end.

(** Trees [JSON.parse] can produce whose numbers carry a JSON literal. *)
Fixpoint well_formed (v : value) : bool :=
  match v with
  | VUndefined => true
  | VNum (Finite lit) => JSON.valid_number lit
  | VArr l => forallb well_formed l
  | VObj props => forallb (fun kx : string * value => well_formed (snd kx)) props
  | _ => true
  end.

(** ** Auxiliary notions for the proofs *)

(** The text an array prints for an element. *)
Definition text (v : value) : string :=
  match JSON.stringify v with
  | Some t => t
  | None => "null"
  end.

(** The members an object prints. *)
Fixpoint members (ps : list (string * value)) : list string :=
  match ps with
  | [] => []
  | (k, x) :: rest =>
      match JSON.stringify x with
      | Some t => (JSON.quote k ++ ":" ++ t) :: members rest
      | None => members rest
      end
  end.

(** The properties [JSON.parse] defines, in order, on top of [acc]. *)
Fixpoint build (ps acc : list (string * value)) : list (string * value) :=
  match ps with
  | [] => acc
  | (k, x) :: rest =>
      match x with
      | VUndefined => build rest acc
      | _ => build rest (JSON.define_property acc k (reparsed x))
      end
  end.

Fixpoint all_chars (P : ascii -> bool) (s : string) : bool :=
  match s with
  | EmptyString => true
  | String c rest => P c && all_chars P rest
  end.

(** Fuel that lets the parser read a value back. *)
Fixpoint size (v : value) : nat :=
  match v with
  | VArr l =>
      S ((fix elements (l : list value) : nat :=
            match l with
            | [] => 0
            | x :: rest => S (size x + elements rest)
            end) l)
  | VObj ps =>
      S ((fix properties (ps : list (string * value)) : nat :=
            match ps with
            | [] => 0
            | (_, VUndefined) :: rest => properties rest
            | (_, x) :: rest => S (size x + properties rest)
            end) ps)
  | _ => 1
  end.

Fixpoint elements_size (l : list value) : nat :=
  match l with
  | [] => 0
  | x :: rest => S (size x + elements_size rest)
  end.

Fixpoint properties_size (ps : list (string * value)) : nat :=
  match ps with
  | [] => 0
  | (_, VUndefined) :: rest => properties_size rest
  | (_, x) :: rest => S (size x + properties_size rest)
  end.

(** The text has no quote in it. *)
Fixpoint no_quote (s : string) : bool :=
  match s with
  | EmptyString => true
  | String c rest => negb (Ascii.eqb c dq) && no_quote rest
  end.

(** What may follow a value or a key in the text [JSON.stringify] prints:
    nothing, or one of the four punctuation marks. *)
Definition delimited (s : string) : bool :=
  match s with
  | EmptyString => true
  | String c _ =>
      Ascii.eqb c "," || Ascii.eqb c ":" || Ascii.eqb c "]" || Ascii.eqb c "}"
  end.

(** A character [QuoteJSONString] copies as it is. *)
Definition is_plain (c : ascii) : bool :=
  negb (Ascii.eqb c dq) && negb (Ascii.eqb c backslash) && (32 <=? nat_of_ascii c)%nat.

(** Every class of the pattern accepts plain characters only. *)
Definition plain_pattern (ps : RegExp.pattern) : Prop :=
  Forall (fun cls : ascii -> bool => forall c, cls c = true -> is_plain c = true) ps.

(** The trees on which the text of the two passes cannot go astray: no
    [undefined], no number that is not finite, no [Error]; no quote in any
    string; no string value that reads like a key to rename; and in every
    object keys that stay distinct once renamed and are no array indices. *)
Fixpoint plain_tree (v : value) : Prop :=
  match v with
  | VUndefined | VError _ => False
  | VNull | VBool _ => True
  | VNum (Finite lit) => JSON.valid_number lit = true
  | VNum _ => False
  | VStr s => no_quote s = true /\ rename_key s = s
  | VArr l =>
      (fix all (l : list value) : Prop :=
         match l with
         | [] => True
         | x :: rest => plain_tree x /\ all rest
         end) l
  | VObj ps =>
      (fix all (ps : list (string * value)) : Prop :=
         match ps with
         | [] => True
         | (k, x) :: rest =>
             no_quote k = true /\ JSON.array_index (rename_key k) = None
             /\ plain_tree x /\ all rest
         end) ps
      /\ NoDup (map (fun kx : string * value => rename_key (fst kx)) ps)
  end.

End Transform.

(** ** Computations: a state, exceptions *)

Module Eff.

(** A computation over a state [S] that returns or throws. *)
Definition M (S A : Type) : Type := S -> result A * S.

Definition ret {S A : Type} (a : A) : M S A := fun s => (inr a, s).

Definition throw {S A : Type} (e : error) : M S A := fun s => (inl e, s).

Definition bind {S A B : Type} (m : M S A) (k : A -> M S B) : M S B :=
  fun s =>
    match m s with
    | (inr a, s') => k a s'
    | (inl e, s') => (inl e, s')
    end.

(** [try { body } catch (e) { handler }] *)
Definition try_catch {S A : Type} (body : M S A) (handler : error -> M S A) : M S A :=
  fun s =>
    match body s with
    | (inr a, s') => (inr a, s')
    | (inl e, s') => handler e s'
    end.

(** An expression that touches no state. *)
Definition lift {S A : Type} (r : result A) : M S A := fun s => (r, s).

End Eff.

Notation "x <- m ;; k" := (Eff.bind m (fun x => k))
  (at level 61, m at next level, right associativity).
Notation "m ;;; k" := (Eff.bind m (fun _ => k))
  (at level 61, right associativity).

(** [base.k1.k2...]: a chain of property reads, from the left. *)
Fixpoint read (base : value) (path : list string) : result value :=
  match path with
  | [] => inr base
  | k :: rest =>
      match get base k with
      | inr v => read v rest
      | inl e => inl e
      end
  end.

(** ** The collaborators *)

(** [openraildata-common]: five constructors, opaque to this program. They
    run in a world of their own, may change it and may throw. *)
Record common_module (world : Type) : Type := {
  TrainStatus : value -> Eff.M world value;
  Schedule : value -> Eff.M world value;
  Association : value -> Eff.M world value;
  TrainOrder : value -> Eff.M world value;
  StationMessage : value -> Eff.M world value
}.

Arguments TrainStatus {world}.
Arguments Schedule {world}.
Arguments Association {world}.
Arguments TrainOrder {world}.
Arguments StationMessage {world}.

(** The options [connect] gives to [xml2json.toJson]. *)
Record toJson_options : Type := {
  object : bool;
  coerce : list (string * (value -> value));
  reversible : bool
}.

(** [xml2json]: it throws on text that is not XML. *)
Record xml2json_module (world : Type) : Type := {
  toJson : string -> toJson_options -> Eff.M world value
}.

Arguments toJson {world}.

(** The options [connect] gives to [stompit.ConnectFailover]. *)
Record reconnect_options : Type := {
  initialReconnectDelay : N;
  maxReconnectDelay : N;
  useExponentialBackOff : bool;
  maxReconnects : N;
  randomize : bool
}.

Record server : Type := {
  host : string;
  port : N;
  connectHeaders : list (string * string)
}.

(** [new stompit.Channel(new stompit.ConnectFailover(servers, options),
    { alwaysConnected })] *)
Record channel : Type := {
  servers : list server;
  reconnect : reconnect_options;
  alwaysConnected : bool
}.

(** What a gunzip stream tells its listeners. *)
Inductive stream_event : Type :=
| Data (data : string)
| End
| Failed (error : error).

(** A message of the subscription: its headers and, for every time it
    becomes readable, what the gunzip stream it is piped into then tells. *)
Record frame : Type := {
  headers : value;
  readable : list (list stream_event)
}.

(** What the channel tells its listeners. *)
Inductive channel_event : Type :=
| Idle
| ChannelError (err server : value)
| Connecting
| Connect.

(** ** [lib/darwin.js] *)

Module Darwin.

(** [process.env.NATIONAL_RAIL_FEED_URL || 'datafeeds.nationalrail.co.uk'] *)
Definition server1 (NATIONAL_RAIL_FEED_URL : option string) : server :=
  {| host := match NATIONAL_RAIL_FEED_URL with
             | Some (String c url) => String c url
             | _ => "datafeeds.nationalrail.co.uk"
             end;
     port := 61613;
     connectHeaders := [("host", "/"); ("login", "d3user");
                        ("passcode", "d3password"); ("heart-beat", "5000,5000")] |}.

(** An instance: its channel, the queues it has subscribed to, the events
    its consumer listens to (one entry for each listener added), and the
    events it has emitted, oldest first. *)
Record darwin : Type := {
  _channel : option channel;
  subscriptions : list string;
  listeners : list string;
  emitted : list (string * list value)
}.

(** [constructor() { super(); this._channel = null; }]: no channel, and no
    listener yet. *)
Definition constructor : darwin :=
  {| _channel := None; subscriptions := []; listeners := []; emitted := [] |}.

(** [this.on(event, listener)], inherited from [EventEmitter].  Listeners
    are code of the consumer; they are taken to return. *)
Definition on (event : string) (this : darwin) : darwin :=
  {| _channel := _channel this;
     subscriptions := subscriptions this;
     listeners := (listeners this ++ [event])%list;
     emitted := emitted this |}.

(** Whether a listener was added for the event. *)
Definition listens (this : darwin) (event : string) : bool :=
  existsb (String.eqb event) (listeners this).

(** What [EventEmitter.emit] throws for an [error] nobody listens to: the
    first argument when it is an [Error], else an error of the emitter
    itself, whose message goes on with a rendering of the argument that is
    left out here. *)
Definition unhandled (args : list value) : error :=
  match args with
  | VError er :: _ => er
  | _ => {| error_name := "Error";
            error_message := "Unhandled error.";
            error_stack := "Error: Unhandled error." |}
  end.

Definition reconnectOptions : reconnect_options :=
  {| initialReconnectDelay := 10;
     maxReconnectDelay := 30000;
     useExponentialBackOff := true;
     maxReconnects := 30;
     randomize := false |}.

(** [{ object: true, coerce: { trainId: value => String(value) },
    reversible: false }] *)
Definition toJsonOptions : toJson_options :=
  {| object := true;
     coerce := [("trainId", fun value => VStr (to_string value))];
     reversible := false |}.

Definition emitted_as (this : darwin) (event : string) (args : list value) : darwin :=
  {| _channel := _channel this;
     subscriptions := subscriptions this;
     listeners := listeners this;
     emitted := (emitted this ++ [(event, args)])%list |}.

Section Instance.

Context {world : Type}.
Variable common : common_module world.
Variable xml2json : xml2json_module world.

Definition getMessage (type : value) (messageJSON : value)
  : Eff.M world (string * value) :=
  if strict_eq_string type "TRAINSTATUS," then
    ts <- Eff.lift (read messageJSON ["Pport"; "ts"]) ;;
    TS <- Eff.lift (read messageJSON ["Pport"; "uR"; "TS"]) ;;
    trainStatus <- TrainStatus common TS ;;
    origin <- Eff.lift (read messageJSON ["Pport"; "uR"; "updateOrigin"]) ;;
    Eff.ret ("trainStatus",
             VObj [("ts", ts); ("trainStatus", trainStatus); ("origin", origin)])
  else if strict_eq_string type "SCHEDULE," then
    id <- Eff.lift (read messageJSON ["Pport"; "uR"; "requestID"]) ;;
    ts <- Eff.lift (read messageJSON ["Pport"; "ts"]) ;;
    arg <- Eff.lift (read messageJSON ["Pport"; "uR"; "schedule"]) ;;
    schedule <- Schedule common arg ;;
    origin <- Eff.lift (read messageJSON ["Pport"; "uR"; "updateOrigin"]) ;;
    source <- Eff.lift (read messageJSON ["Pport"; "uR"; "requestSource"]) ;;
    Eff.ret ("schedule",
             VObj [("id", id); ("ts", ts); ("schedule", schedule);
                   ("origin", origin); ("source", source)])
  else if strict_eq_string type "ASSOCIATION," then
    id <- Eff.lift (read messageJSON ["Pport"; "uR"; "requestID"]) ;;
    ts <- Eff.lift (read messageJSON ["Pport"; "ts"]) ;;
    arg <- Eff.lift (read messageJSON ["Pport"; "uR"; "association"]) ;;
    association <- Association common arg ;;
    origin <- Eff.lift (read messageJSON ["Pport"; "uR"; "updateOrigin"]) ;;
    source <- Eff.lift (read messageJSON ["Pport"; "uR"; "requestSource"]) ;;
    Eff.ret ("association",
             VObj [("id", id); ("ts", ts); ("association", association);
                   ("origin", origin); ("source", source)])
  else if strict_eq_string type "TRAINORDER," then
    id <- Eff.lift (read messageJSON ["Pport"; "uR"; "requestID"]) ;;
    ts <- Eff.lift (read messageJSON ["Pport"; "ts"]) ;;
    arg <- Eff.lift (read messageJSON ["Pport"; "uR"; "trainOrder"]) ;;
    trainOrder <- TrainOrder common arg ;;
    origin <- Eff.lift (read messageJSON ["Pport"; "uR"; "updateOrigin"]) ;;
    source <- Eff.lift (read messageJSON ["Pport"; "uR"; "requestSource"]) ;;
    Eff.ret ("trainOrder",
             VObj [("id", id); ("ts", ts); ("trainOrder", trainOrder);
                   ("origin", origin); ("source", source)])
  else if strict_eq_string type "STATIONMESSAGE," then
    ts <- Eff.lift (read messageJSON ["Pport"; "ts"]) ;;
    OW <- Eff.lift (read messageJSON ["Pport"; "uR"; "OW"]) ;;
    stationMessage <- StationMessage common OW ;;
    origin <- Eff.lift (read messageJSON ["Pport"; "uR"; "updateOrigin"]) ;;
    Eff.ret ("stationMessage",
             VObj [("ts", ts); ("stationMessage", stationMessage); ("origin", origin)])
  else
    Eff.ret ("unhandledMessage", messageJSON).

(** [this.emit(event, ...args)], inherited from [EventEmitter]: an [error]
    that has no listener is thrown; any other event, and an [error] that
    has a listener, is recorded on the instance and [emit] returns.  What
    the listeners do with an event is not part of this model. *)
Definition emit (event : string) (args : list value) : Eff.M (darwin * world) unit :=
  fun s =>
    if String.eqb event "error" && negb (listens (fst s) "error")
    then (inl (unhandled args), s)
    else (inr tt, (emitted_as (fst s) event args, snd s)).

(** A collaborator at work: the instance is out of its reach. *)
Definition call {A : Type} (m : Eff.M world A) : Eff.M (darwin * world) A :=
  fun s => let (r, w) := m (snd s) in (r, (fst s, w)).

(** [connect(queue)]: the channel is made and the queue subscribed to. *)
Definition connect (NATIONAL_RAIL_FEED_URL : option string) (queue : string)
           (this : darwin) : darwin :=
  {| _channel := Some {| servers := [server1 NATIONAL_RAIL_FEED_URL];
                         reconnect := reconnectOptions;
                         alwaysConnected := true |};
     subscriptions := (subscriptions this ++ [queue])%list;
     listeners := listeners this;
     emitted := emitted this |}.

(** The four listeners on the channel. *)
Definition on_channel (ev : channel_event) : Eff.M (darwin * world) unit :=
  match ev with
  | Idle => emit "idle" []
  | ChannelError err server => emit "error" [err; server]
  | Connecting => emit "connecting" []
  | Connect => emit "connect" []
  end.

(** [messageStream.on('data', ...)] *)
Definition on_data (data : string) (buffer : list string) : list string :=
  (buffer ++ [data])%list.

(** [messageStream.on('error', ...)] *)
Definition on_error (error : error) (message : frame) (buffer : list string)
  : Eff.M (darwin * world) unit :=
  if (0 <? List.length buffer)%nat
  then emit "error" [VError error; headers message]
  else Eff.ret tt.

(** [JSON.stringify(v)] as an argument. *)
Definition stringified (v : value) : value :=
  match JSON.stringify v with
  | Some t => VStr t
  | None => VUndefined
  end.

(** [messageStream.on('end', ...)] *)
Definition on_end (type : value) (buffer : list string)
  : Eff.M (darwin * world) unit :=
  let messageXML := String.concat EmptyString buffer in
  xml <- call (toJson xml2json messageXML toJsonOptions) ;;
  messageJSON <- Eff.lift (replaceKeys xml) ;;
  Eff.try_catch
    (ev <- call (getMessage type messageJSON) ;;
     emit (fst ev) [snd ev])
    (fun messageErr =>
       emit "messageErr" [VStr (error_stack messageErr); stringified messageJSON]).

(** The gunzip stream of one [readable] notification, from an empty
    buffer: each thing it tells goes to its listener.  An exception that
    leaves a listener is not caught by anything in this program; here it
    ends the run. *)
Fixpoint stream (type : value) (message : frame) (events : list stream_event)
         (buffer : list string) : Eff.M (darwin * world) unit :=
  match events with
  | [] => Eff.ret tt
  | Data data :: rest => stream type message rest (on_data data buffer)
  | End :: rest => on_end type buffer ;;; stream type message rest buffer
  | Failed error :: rest =>
      on_error error message buffer ;;; stream type message rest buffer
  end.

Fixpoint on_readable (type : value) (message : frame)
         (notifications : list (list stream_event)) : Eff.M (darwin * world) unit :=
  match notifications with
  | [] => Eff.ret tt
  | events :: rest =>
      stream type message events [] ;;; on_readable type message rest
  end.

(** The callback given to [this._channel.subscribe]. *)
Definition on_message (err : value) (message : option frame)
  : Eff.M (darwin * world) unit :=
  if to_boolean err then
    emit "error" [err]
  else
    match message with
    | None => Eff.throw (TypeError "Cannot read property 'headers' of undefined")
    | Some message =>
        type <- Eff.lift (get (headers message) "FilterHeaderLevel") ;;
        on_readable type message (readable message)
    end.

End Instance.

(** *** The collaborators' side of two options *)

(** Modelled from the spec: one step of the backoff of the failover
    connection factory ([stompit.ConnectFailover]), which is not part of
    this repository: the delay doubles when the backoff is exponential. *)
Definition backoff (o : reconnect_options) (delay : N) : N :=
  if useExponentialBackOff o then (2 * delay)%N else delay.

(** Modelled from the spec: the delay of the failover connection factory
    before attempt [failures + 1], after [failures] failures in a row: the
    backoff applied that many times to the initial delay, capped at the
    maximum delay; no jitter. *)
Definition reconnect_delay (o : reconnect_options) (failures : nat) : N :=
  N.min (Nat.iter failures (backoff o) (initialReconnectDelay o)) (maxReconnectDelay o).

(** Modelled from the spec: the failover connection factory makes attempt
    [failures + 1] only while the failures in a row are fewer than the
    maximum attempt count. *)
Definition attempt_allowed (o : reconnect_options) (failures : nat) : bool :=
  (N.of_nat failures <? maxReconnects o)%N.

(** Modelled from the spec: the hook the XML-to-structure primitive
    ([xml2json], not part of this repository) finds for a field, under the
    name of the field in [coerce]. *)
Fixpoint hook_of (field : string) (hooks : list (string * (value -> value)))
  : option (value -> value) :=
  match hooks with
  | [] => None
  | (k, h) :: rest => if String.eqb field k then Some h else hook_of field rest
  end.

(** Modelled from the spec: the per-field coercion of the XML-to-structure
    primitive ([xml2json], not part of this repository): the text of a field
    that has a hook goes through the hook, the text of any other field
    through the primitive's own coercion, [default]. *)
Definition coerce_field (default : string -> value) (o : toJson_options)
           (field : string) (text : string) : value :=
  match hook_of field (coerce o) with
  | Some hook => hook (VStr text)
  | None => default text
  end.

(** Modelled from the spec: a decoded XML document as the XML-to-structure
    primitive ([xml2json], not part of this repository) sees it: a field
    holds text, or fields of its own. *)
#[warnings="-register-all"]
Inductive document : Type :=
| Text (text : string)
| Fields (fields : list (string * document)).

(** Modelled from the spec: the nested generic structure the primitive
    makes of a field: the text of a field goes through the per-field
    coercion under the name of the field, and the fields of a field make an
    object, in their order. *)
Fixpoint convert (default : string -> value) (o : toJson_options)
         (field : string) (d : document) : value :=
  match d with
  | Text text => coerce_field default o field text
  | Fields fields =>
      VObj (map (fun kd : string * document =>
                   (fst kd, convert default o (fst kd) (snd kd))) fields)
  end.

(** Modelled from the spec: the field of a document at the end of a path
    of names. *)
Fixpoint field_at (d : document) (path : list string) {struct path}
  : option document :=
  match path with
  | [] => Some d
  | k :: rest =>
      match d with
      | Text _ => None
      | Fields fields =>
          (fix find (fs : list (string * document)) : option document :=
             match fs with
             | [] => None
             | (k', d') :: fs' =>
                 if String.eqb k k' then field_at d' rest else find fs'
             end) fields
      end
  end.

(** Modelled from the spec: the XML-to-structure primitive as a
    collaborator: it reads the text as the fields of a document (the
    reading, [parse], is its own business and stays a parameter), converts
    them with the options it is given, and throws on text it cannot read. *)
Definition primitive {world : Type}
           (parse : string -> option (list (string * document)))
           (default : string -> value) : xml2json_module world :=
  {| toJson := fun text o =>
       match parse text with
       | Some fields => Eff.ret (convert default o EmptyString (Fields fields))
       | None =>
           Eff.throw {| error_name := "Error";
                        error_message := "There are errors in your xml file";
                        error_stack := "Error: There are errors in your xml file" |}
       end |}.

End Darwin.

(** ** Names and sample data used in the statements *)

(** The five literals [getMessage] compares the header with. *)
Definition recognized_types : list string :=
  ["TRAINSTATUS,"; "SCHEDULE,"; "ASSOCIATION,"; "TRAINORDER,"; "STATIONMESSAGE,"].

(** The names of the typed events and of the error notifications. *)
Definition typed_event (event : string) : bool :=
  existsb (String.eqb event)
    ["trainStatus"; "schedule"; "association"; "trainOrder"; "stationMessage";
     "unhandledMessage"].

Definition error_notification (event : string) : bool :=
  String.eqb event "error" || String.eqb event "messageErr".




Module Example.

(** Constructors that wrap what they are given and throw when they are
    given [undefined]; they leave their world, a number, as it is. *)
Definition construct (class : string) (data : value) : Eff.M nat value :=
  match data with
  | VUndefined =>
      Eff.throw (TypeError "Cannot read property 'rid' of undefined")
  | _ => Eff.ret (VObj [("class", VStr class); ("data", data)])
  end.

Definition common : common_module nat :=
  {| TrainStatus := construct "TrainStatus";
     Schedule := construct "Schedule";
     Association := construct "Association";
     TrainOrder := construct "TrainOrder";
     StationMessage := construct "StationMessage" |}.

(** One schedule message as the feed sends it, and the same update without
    its schedule. *)
Definition schedule_xml : string :=
  "<Pport ts='2017-06-01T10:00:00'><uR updateOrigin='CIS' requestID='AM02096042' requestSource='at21'>"
  ++ "<schedule rid='201706017170001' trainId='0B00'><ns3:Location tpl='EUSTON'/>"
  ++ "<ns3:Location><ns2:tpl>WATFDJ</ns2:tpl></ns3:Location></schedule></uR></Pport>".

Definition bare_xml : string :=
  "<Pport ts='2017-06-01T10:00:00'><uR updateOrigin='CIS'/></Pport>".

(** What the XML conversion gives for them. *)
Definition converted : value :=
  VObj [("Pport",
         VObj [("ts", VStr "2017-06-01T10:00:00");
               ("uR",
                VObj [("updateOrigin", VStr "CIS");
                      ("requestID", VStr "AM02096042");
                      ("requestSource", VStr "at21");
                      ("schedule",
                       VObj [("rid", VNum (Finite "201706017170001"));
                             ("trainId", VStr "0B00");
                             ("ns3:Location",
                              VArr [VObj [("tpl", VStr "EUSTON")];
                                    VObj [("ns2:tpl", VStr "WATFDJ")]])])])])].

Definition bare : value :=
  VObj [("Pport",
         VObj [("ts", VStr "2017-06-01T10:00:00");
               ("uR", VObj [("updateOrigin", VStr "CIS")])])].

(** The record [replaceKeys] makes of the schedule message. *)
Definition record : value :=
  VObj [("Pport",
         VObj [("ts", VStr "2017-06-01T10:00:00");
               ("uR",
                VObj [("updateOrigin", VStr "CIS");
                      ("requestID", VStr "AM02096042");
                      ("requestSource", VStr "at21");
                      ("schedule",
                       VObj [("rid", VNum (Finite "201706017170001"));
                             ("trainId", VStr "0B00");
                             ("locations",
                              VArr [VObj [("tpl", VStr "EUSTON")];
                                    VObj [("tpl", VStr "WATFDJ")]])])])])].

(** The schedule the sample constructor makes of it. *)
Definition schedule : value :=
  VObj [("class", VStr "Schedule");
        ("data",
         VObj [("rid", VNum (Finite "201706017170001"));
               ("trainId", VStr "0B00");
               ("locations",
                VArr [VObj [("tpl", VStr "EUSTON")];
                      VObj [("tpl", VStr "WATFDJ")]])])].

(** A text that is not XML: the closing tag does not match the open one. *)
Definition mismatched_xml : string :=
  "<Pport ts='2017-06-01T10:00:00'><uR></Pport>".

(** The conversion on three texts: the two documents above, which it
    converts, and the text that is not XML, which it throws on.  It stands
    for [xml2json] on these three texts only; on any other text it throws
    an error of its own. *)
Definition xml2json : xml2json_module nat :=
  {| toJson := fun text _ =>
       if String.eqb text schedule_xml then Eff.ret converted
       else if String.eqb text bare_xml then Eff.ret bare
       else if String.eqb text mismatched_xml then
         Eff.throw (Error "Error" "There are errors in your xml file: mismatched tag"
                      "Error: There are errors in your xml file: mismatched tag")
       else Eff.throw (Error "Error" "text outside the examples"
                         "Error: text outside the examples") |}.




(** The schedule message as a frame read in one notification, in two
    chunks. *)
Definition schedule_chunks : list string :=
  ["<Pport ts='2017-06-01T10:00:00'><uR updateOrigin='CIS' requestID='AM02096042' requestSource='at21'>";
   "<schedule rid='201706017170001' trainId='0B00'><ns3:Location tpl='EUSTON'/>"
   ++ "<ns3:Location><ns2:tpl>WATFDJ</ns2:tpl></ns3:Location></schedule></uR></Pport>"].

Definition schedule_frame : frame :=
  {| headers := VObj [("FilterHeaderLevel", VStr "SCHEDULE,")];
     readable := [(map Data schedule_chunks ++ [End])%list] |}.


(** A frame whose text is not XML, in two chunks. *)
Definition mismatched_chunks : list string :=
  ["<Pport ts='2017-06-01T10:00:00'>"; "<uR></Pport>"].

Definition malformed_frame : frame :=
  {| headers := VObj [("FilterHeaderLevel", VStr "SCHEDULE,")];
     readable := [(map Data mismatched_chunks ++ [End])%list] |}.

(** A frame whose stream fails after one chunk. *)
Definition failure : error :=
  Error "Error" "unexpected end of file" "Error: unexpected end of file".

Definition failing_frame : frame :=
  {| headers := VObj [("FilterHeaderLevel", VStr "SCHEDULE,")];
     readable := [[Data "<Pport ts='2017-06-01T10:00:00'>"; Failed failure]] |}.

(** An instance as the constructor leaves it, and one whose consumer
    listens to [error]. *)
Definition fresh : Darwin.darwin := Darwin.constructor.

Definition listening : Darwin.darwin := Darwin.on "error" fresh.

(** A document with a train identifier that reads like a number, its
    reading from a text, and a coercion that turns a text of one to
    fifteen digits into the number it writes. *)
Definition journey : list (string * Darwin.document) :=
  [("Pport",
    Darwin.Fields
      [("ts", Darwin.Text "2017-06-01T10:00:00");
       ("uR",
        Darwin.Fields
          [("updateOrigin", Darwin.Text "CIS");
           ("schedule",
            Darwin.Fields [("rid", Darwin.Text "0201706017170001");
                           ("trainId", Darwin.Text "0042")])])])].

Definition journey_xml : string :=
  "<Pport ts='2017-06-01T10:00:00'><uR updateOrigin='CIS'>"
  ++ "<schedule rid='0201706017170001' trainId='0042'/></uR></Pport>".

Definition reading (text : string) : option (list (string * Darwin.document)) :=
  if String.eqb text journey_xml then Some journey else None.

Fixpoint without_zeros (digits : string) : string :=
  match digits with
  | String c rest =>
      match rest with
      | EmptyString => digits
      | String _ _ => if Ascii.eqb c "0" then without_zeros rest else digits
      end
  | EmptyString => digits
  end.

Definition number_of_digits (text : string) : value :=
  if Transform.all_chars is_digit text
     && (1 <=? String.length text)%nat && (String.length text <=? 16)%nat
  then VNum (Finite (without_zeros text))
  else VStr text.

(** A tree whose only prefixed key holds a value that reads like a key. *)
Definition location_value : value :=
  VObj [("ns2:tpl", VStr "ns3:Location")].

End Example.

(** ** Further notions used in the statements *)

(** [null] or [undefined]: the values a property cannot be read from. *)
Definition nullish (v : value) : bool :=
  match v with
  | VUndefined | VNull => true
  | _ => false
  end.

(** The record is nullish, or its [Pport] is, or its [Pport.uR] is. *)
Definition lacks_update (record : value) : bool :=
  nullish record
  || match get record "Pport" with
     | inr pport =>
         nullish pport
         || match get pport "uR" with
            | inr uR => nullish uR
            | inl _ => false
            end
     | inl _ => false
     end.

(** The event each branch of [getMessage] names. *)
Definition event_of (type : value) : string :=
  if strict_eq_string type "TRAINSTATUS," then "trainStatus"
  else if strict_eq_string type "SCHEDULE," then "schedule"
  else if strict_eq_string type "ASSOCIATION," then "association"
  else if strict_eq_string type "TRAINORDER," then "trainOrder"
  else if strict_eq_string type "STATIONMESSAGE," then "stationMessage"
  else "unhandledMessage".

(** A key with a one-digit namespace prefix. *)
Definition prefixed (d : ascii) (k : string) : string :=
  String "n" (String "s" (String d (String ":" k))).

(** The properties of an object with their keys renamed, and the keys
    renamed in their values. *)
Definition renamed (ps : list (string * value)) : list (string * value) :=
  map (fun kx : string * value =>
         (Transform.rename_key (fst kx), Transform.rename_keys (snd kx))) ps.

(** A tree of JSON: no [undefined], no number that is not finite, no
    [Error], and in every object keys that are pairwise distinct. *)
Fixpoint distinct (keys : list string) : bool :=
  match keys with
  | [] => true
  | k :: rest => negb (existsb (String.eqb k) rest) && distinct rest
  end.

Fixpoint json_tree (v : value) : bool :=
  match v with
  | VUndefined | VError _ => false
  | VNull | VBool _ | VStr _ => true
  | VNum (Finite _) => true
  | VNum _ => false
  | VArr l => forallb json_tree l
  | VObj ps =>
      forallb (fun kx : string * value => json_tree (snd kx)) ps
      && distinct (map fst ps)
  end.

(** The properties gathered so far: values of JSON under distinct keys. *)
Definition gathered (acc : list (string * value)) : Prop :=
  Forall (fun kx : string * value => json_tree (snd kx) = true) acc
  /\ NoDup (map fst acc).

(** The stream events that are not data. *)
Fixpoint endings (events : list stream_event) : nat :=
  match events with
  | [] => 0
  | Data _ :: rest => endings rest
  | _ :: rest => S (endings rest)
  end.

(** The order of the properties of an object: array indices first, in
    ascending order, then the other keys; [k] may stand before [k']. *)
Definition precedes (k k' : string) : bool :=
  match JSON.array_index k, JSON.array_index k' with
  | Some i, Some j => (i <? j)%N
  | Some _, None => true
  | None, Some _ => false
  | None, None => true
  end.

Fixpoint ordered (keys : list string) : bool :=
  match keys with
  | [] => true
  | k :: rest =>
      forallb (fun k' => precedes k k' && negb (String.eqb k k')) rest && ordered rest
  end.

(** A tree as [JSON.parse] makes them: a tree of JSON whose numbers carry a
    JSON literal and whose objects have their properties in order. *)
Fixpoint canonical (v : value) : bool :=
  match v with
  | VUndefined | VError _ => false
  | VNull | VBool _ | VStr _ => true
  | VNum (Finite lit) => JSON.valid_number lit
  | VNum _ => false
  | VArr l => forallb canonical l
  | VObj ps =>
      forallb (fun kx : string * value => canonical (snd kx)) ps
      && ordered (map fst ps)
  end.

(** What the channel tells, each event given to its listener, one after
    the other. *)
Fixpoint on_channel_events {world : Type} (events : list channel_event)
  : Eff.M (Darwin.darwin * world) unit :=
  match events with
  | [] => Eff.ret tt
  | ev :: rest => Darwin.on_channel ev ;;; on_channel_events rest
  end.

(** The event and the arguments the listener on the channel gives to
    [emit] for what the channel tells. *)
Definition forwarded (ev : channel_event) : string * list value :=
  match ev with
  | Idle => ("idle", [])
  | ChannelError err server => ("error", [err; server])
  | Connecting => ("connecting", [])
  | Connect => ("connect", [])
  end.

(** What the channel tells that is no error. *)
Definition calm (ev : channel_event) : bool :=
  match ev with
  | ChannelError _ _ => false
  | _ => true
  end.

(** What [replaceKeys] makes of an element of an array. *)
Definition element_result (x y : value) : Prop :=
  match x with
  | VUndefined => y = VNull
  | _ => replaceKeys x = inr y
  end.

(** * Properties *)

(** ** Strings *)

Lemma append_nil_r (s : string) : s ++ EmptyString = s.
Proof. induction s as [|c s IH]; simpl; [reflexivity | now rewrite IH]. Qed.

Lemma append_assoc (a b c : string) : (a ++ b) ++ c = a ++ (b ++ c).
Proof. induction a as [|x a IH]; simpl; [reflexivity | now rewrite IH]. Qed.

Lemma length_append (a b : string) :
  String.length (a ++ b) = String.length a + String.length b.
Proof. induction a as [|x a IH]; simpl; [reflexivity | now rewrite IH]. Qed.

(** ** Global replacement *)

Section Replace.

(** Both regular expressions of [replaceKeys] open with a quote. *)
Variable tail : RegExp.pattern.
Variable replacement : string.

Lemma replace_from_skip (a rest : string) :
  RegExp.replace_from (Ascii.eqb dq :: tail) replacement (String.length a) (a ++ rest)
  = RegExp.replace rest (Ascii.eqb dq :: tail) replacement.
Proof.
  unfold RegExp.replace.
  induction a as [|c a IH]; simpl.
  - destruct rest; reflexivity.
  - exact IH.
Qed.

Lemma scan_match (a rest : string) :
  RegExp.matches tail (a ++ rest) = true ->
  String.length a = List.length tail ->
  RegExp.replace (String dq (a ++ rest)) (Ascii.eqb dq :: tail) replacement
  = replacement ++ RegExp.replace rest (Ascii.eqb dq :: tail) replacement.
Proof.
  intros Hm Hlen.
  unfold RegExp.replace at 1. cbn [RegExp.replace_from RegExp.matches].
  rewrite Ascii.eqb_refl, Hm. cbn [andb List.length].
  rewrite <- Hlen. now rewrite replace_from_skip.
Qed.

Lemma scan_no_match (c : ascii) (s : string) :
  RegExp.matches (Ascii.eqb dq :: tail) (String c s) = false ->
  RegExp.replace (String c s) (Ascii.eqb dq :: tail) replacement
  = String c (RegExp.replace s (Ascii.eqb dq :: tail) replacement).
Proof.
  intros Hm. unfold RegExp.replace. cbn [RegExp.replace_from]. now rewrite Hm.
Qed.

Lemma scan_other (c : ascii) (s : string) :
  Ascii.eqb c dq = false ->
  RegExp.replace (String c s) (Ascii.eqb dq :: tail) replacement
  = String c (RegExp.replace s (Ascii.eqb dq :: tail) replacement).
Proof.
  intros Hc. apply scan_no_match. cbn [RegExp.matches].
  now rewrite Ascii.eqb_sym, Hc.
Qed.

Lemma scan_no_quote (t rest : string) :
  Transform.no_quote t = true ->
  RegExp.replace (t ++ rest) (Ascii.eqb dq :: tail) replacement
  = t ++ RegExp.replace rest (Ascii.eqb dq :: tail) replacement.
Proof.
  induction t as [|c t IH]; intros Hq; [reflexivity|].
  cbn [Transform.no_quote] in Hq. apply andb_true_iff in Hq as [Hc Ht].
  apply negb_true_iff in Hc.
  change (String c t ++ rest) with (String c (t ++ rest)).
  rewrite scan_other by exact Hc. now rewrite IH.
Qed.

Lemma scan_quote (s : string) :
  RegExp.matches tail s = false ->
  RegExp.replace (String dq s) (Ascii.eqb dq :: tail) replacement
  = String dq (RegExp.replace s (Ascii.eqb dq :: tail) replacement).
Proof.
  intros Hm. apply scan_no_match. cbn [RegExp.matches].
  now rewrite Hm, andb_false_r.
Qed.

End Replace.

(** ** Escaping *)

Ltac each_ascii c :=
  destruct c as [[|] [|] [|] [|] [|] [|] [|] [|]].

Lemma escape_char_plain (c : ascii) :
  Transform.is_plain c = true -> JSON.escape_char c = String c EmptyString.
Proof. each_ascii c; intros H; try reflexivity; discriminate H. Qed.

Lemma escape_char_special (c : ascii) :
  Transform.is_plain c = false ->
  exists t, JSON.escape_char c = String backslash t.
Proof. each_ascii c; intros H; try discriminate H; eexists; reflexivity. Qed.

Lemma escape_char_no_quote (c : ascii) :
  Ascii.eqb c dq = false -> Transform.no_quote (JSON.escape_char c) = true.
Proof. each_ascii c; intros H; try reflexivity; discriminate H. Qed.

Lemma parse_string_escape_char (c : ascii) (rest : string) :
  JSON.parse_string (JSON.escape_char c ++ rest)
  = JSON.cons_fst c (JSON.parse_string rest).
Proof. each_ascii c; reflexivity. Qed.

(** ** Matching inside a serialized string *)

Ltac step_matches :=
  cbn [JSON.escape RegExp.matches RegExp.literal list_ascii_of_string map app
       String.append andb String.length List.length Nat.eqb].

Lemma plain_rejects (cls : ascii -> bool) (c : ascii) :
  (forall c, cls c = true -> Transform.is_plain c = true) ->
  Transform.is_plain c = false -> cls c = false.
Proof.
  intros H Hc. destruct (cls c) eqn:E; [|reflexivity].
  apply H in E. congruence.
Qed.

(** A plain pattern matches the escaped text exactly where it matches the
    string itself: it cannot reach the closing quote. *)
Lemma matches_escape (ps : RegExp.pattern) :
  Transform.plain_pattern ps ->
  forall r rest,
    RegExp.matches ps (JSON.escape r ++ String dq rest) = RegExp.matches ps r.
Proof.
  induction 1 as [|cls ps Hcls Hps IH]; intros r rest; [reflexivity|].
  destruct r as [|c r].
  - step_matches. rewrite (plain_rejects cls dq Hcls); reflexivity.
  - cbn [JSON.escape]. rewrite append_assoc.
    destruct (Transform.is_plain c) eqn:Hc.
    + rewrite (escape_char_plain c Hc). step_matches. now rewrite IH.
    + destruct (escape_char_special c Hc) as [t ->]. step_matches.
      rewrite (plain_rejects cls c Hcls Hc).
      rewrite (plain_rejects cls backslash Hcls); reflexivity.
Qed.

(** Where a plain pattern matches, the matched characters are printed as
    they are. *)
Lemma matches_split (ps : RegExp.pattern) :
  Transform.plain_pattern ps ->
  forall r, RegExp.matches ps r = true ->
    exists a r', r = a ++ r' /\ String.length a = List.length ps
                 /\ JSON.escape r = a ++ JSON.escape r'.
Proof.
  induction 1 as [|cls ps Hcls Hps IH]; intros r Hm.
  - exists EmptyString, r. repeat split.
  - destruct r as [|c r]; [discriminate Hm|].
    cbn [RegExp.matches] in Hm. apply andb_true_iff in Hm as [Hc Hm].
    destruct (IH r Hm) as (a & r' & -> & Hlen & Hesc).
    exists (String c a), r'. repeat split.
    + step_matches. now rewrite Hlen.
    + cbn [JSON.escape]. rewrite (escape_char_plain c (Hcls c Hc)), Hesc. reflexivity.
Qed.

(** A plain pattern followed by a quote matches the escaped text only when
    the string is the pattern's text and the quote is the closing one. *)
Lemma matches_escape_closed (ps : RegExp.pattern) :
  Transform.plain_pattern ps ->
  forall r rest,
    RegExp.matches (ps ++ [Ascii.eqb dq])%list (JSON.escape r ++ String dq rest)
    = RegExp.matches ps r && (String.length r =? List.length ps)%nat.
Proof.
  induction 1 as [|cls ps Hcls Hps IH]; intros r rest.
  - destruct r as [|c r]; [reflexivity|].
    cbn [JSON.escape]. rewrite append_assoc.
    destruct (Transform.is_plain c) eqn:Hc.
    + rewrite (escape_char_plain c Hc). step_matches.
      unfold Transform.is_plain in Hc. rewrite (Ascii.eqb_sym dq c).
      destruct (Ascii.eqb c dq); [discriminate Hc | reflexivity].
    + destruct (escape_char_special c Hc) as [t ->]. reflexivity.
  - destruct r as [|c r].
    + step_matches. rewrite (plain_rejects cls dq Hcls); reflexivity.
    + cbn [JSON.escape]. rewrite append_assoc.
      destruct (Transform.is_plain c) eqn:Hc.
      * rewrite (escape_char_plain c Hc). step_matches. rewrite IH.
        now rewrite andb_assoc.
      * destruct (escape_char_special c Hc) as [t ->]. step_matches.
        rewrite (plain_rejects cls c Hcls Hc).
        rewrite (plain_rejects cls backslash Hcls); reflexivity.
Qed.

Lemma matches_literal (lit r : string) :
  RegExp.matches (RegExp.literal lit) r && (String.length r =? String.length lit)%nat
  = String.eqb r lit.
Proof.
  revert r. induction lit as [|a lit IH]; intros r.
  - destruct r; reflexivity.
  - destruct r as [|c r]; [reflexivity|].
    change (RegExp.literal (String a lit)) with (Ascii.eqb a :: RegExp.literal lit).
    cbn [RegExp.matches String.length Nat.eqb String.eqb].
    rewrite <- IH, (Ascii.eqb_sym c a). now rewrite <- andb_assoc.
Qed.

Lemma length_literal (lit : string) :
  List.length (RegExp.literal lit) = String.length lit.
Proof.
  unfold RegExp.literal. rewrite length_map.
  induction lit; simpl; congruence.
Qed.

(** ** The two passes over one serialized string *)

Lemma plain_literal :
  Transform.plain_pattern (RegExp.literal "ns3:Location").
Proof.
  repeat constructor; intros c H; apply Ascii.eqb_eq in H; subst c; reflexivity.
Qed.

Lemma digit_plain (c : ascii) : is_digit c = true -> Transform.is_plain c = true.
Proof. each_ascii c; intros H; try reflexivity; discriminate H. Qed.

Lemma plain_namespace :
  Transform.plain_pattern [Ascii.eqb "n"; Ascii.eqb "s"; is_digit; Ascii.eqb ":"]%char.
Proof.
  repeat constructor; intros c H; try (apply digit_plain; exact H);
    apply Ascii.eqb_eq in H; subst c; reflexivity.
Qed.

Lemma delimited_no_namespace (rest : string) :
  Transform.delimited rest = true ->
  RegExp.matches [Ascii.eqb "n"; Ascii.eqb "s"; is_digit; Ascii.eqb ":"]%char rest = false.
Proof.
  destruct rest as [|c rest]; [reflexivity|].
  cbn [Transform.delimited RegExp.matches]. intros H.
  destruct (Ascii.eqb_spec "n" c) as [<-|]; [discriminate H | reflexivity].
Qed.

Lemma delimited_no_location (rest : string) :
  Transform.delimited rest = true ->
  RegExp.matches (RegExp.literal "ns3:Location" ++ [Ascii.eqb dq])%list rest = false.
Proof.
  destruct rest as [|c rest]; [reflexivity|].
  change (RegExp.literal "ns3:Location") with (Ascii.eqb "n" :: RegExp.literal "s3:Location").
  cbn [Transform.delimited RegExp.matches app]. intros H.
  destruct (Ascii.eqb_spec "n" c) as [<-|]; [discriminate H | reflexivity].
Qed.

(** The second pass inside a string: the escaped text is rewritten as the
    raw text is. *)
Lemma namespace_inside (n : nat) :
  forall s, String.length s <= n ->
  forall rest,
    RegExp.matches [Ascii.eqb "n"; Ascii.eqb "s"; is_digit; Ascii.eqb ":"]%char rest = false ->
    RegExp.replace (JSON.escape s ++ String dq rest) namespace_regexp namespace_replacement
    = JSON.escape (RegExp.replace s namespace_regexp namespace_replacement)
      ++ String dq (RegExp.replace rest namespace_regexp namespace_replacement).
Proof.
  unfold namespace_regexp.
  induction n as [|n IH]; intros s Hlen rest Hrest.
  - destruct s as [|c s]; [|simpl in Hlen; lia].
    cbn [JSON.escape String.append]. now rewrite scan_quote.
  - destruct s as [|c s].
    { cbn [JSON.escape String.append]. now rewrite scan_quote. }
    cbn [String.length] in Hlen.
    cbn [JSON.escape]. rewrite append_assoc.
    destruct (Ascii.eqb c dq) eqn:Hc.
    + apply Ascii.eqb_eq in Hc; subst c.
      change (JSON.escape_char dq) with (String backslash (String dq EmptyString)).
      cbn [String.append].
      rewrite scan_other by reflexivity.
      destruct (RegExp.matches [Ascii.eqb "n"; Ascii.eqb "s"; is_digit; Ascii.eqb ":"]%char s) eqn:Hm.
      * destruct (matches_split _ plain_namespace s Hm) as (a & r' & -> & Hl & He).
        rewrite He, append_assoc.
        rewrite scan_match;
          [| rewrite <- append_assoc, <- He, matches_escape by exact plain_namespace;
             exact Hm
           | exact Hl].
        rewrite scan_match by assumption.
        rewrite IH; [| rewrite length_append in Hlen; lia | exact Hrest].
        reflexivity.
      * rewrite scan_quote
          by (rewrite matches_escape by exact plain_namespace; exact Hm).
        rewrite IH by (assumption || lia).
        rewrite (scan_quote _ _ s Hm). reflexivity.
    + rewrite scan_no_quote by (apply escape_char_no_quote; exact Hc).
      rewrite IH by (assumption || lia).
      rewrite (scan_other _ _ c s Hc).
      cbn [JSON.escape]. now rewrite append_assoc.
Qed.

(** The second pass over a serialized string and what follows it. *)
Lemma namespace_token (s rest : string) :
  Transform.delimited rest = true ->
  RegExp.replace (JSON.quote s ++ rest) namespace_regexp namespace_replacement
  = JSON.quote (Transform.strip_namespace s)
    ++ RegExp.replace rest namespace_regexp namespace_replacement.
Proof.
  intros Hrest. apply delimited_no_namespace in Hrest.
  unfold JSON.quote, Transform.strip_namespace.
  cbn [String.append]. rewrite !append_assoc. cbn [String.append].
  pose proof namespace_inside as Hin.
  unfold namespace_regexp in *.
  destruct (RegExp.matches [Ascii.eqb "n"; Ascii.eqb "s"; is_digit; Ascii.eqb ":"]%char s) eqn:Hm.
  - destruct (matches_split _ plain_namespace s Hm) as (a & r' & -> & Hl & He).
    rewrite He, append_assoc.
    rewrite scan_match;
      [| rewrite <- append_assoc, <- He, matches_escape by exact plain_namespace;
         exact Hm
       | exact Hl].
    rewrite scan_match by assumption.
    rewrite (Hin _ r' (le_n _) rest Hrest).
    unfold namespace_replacement.
    cbn [String.append]. reflexivity.
  - rewrite scan_quote
      by (rewrite matches_escape by exact plain_namespace; exact Hm).
    rewrite (Hin _ s (le_n _) rest Hrest).
    rewrite (scan_quote _ _ s Hm).
    reflexivity.
Qed.

(** The first pass inside a string. *)
Lemma location_inside (s : string) :
  forall rest,
    RegExp.matches (RegExp.literal "ns3:Location" ++ [Ascii.eqb dq])%list rest = false ->
    RegExp.replace (JSON.escape s ++ String dq rest) location_regexp location_replacement
    = JSON.escape (Transform.rename_location_tail s)
      ++ String dq (RegExp.replace rest location_regexp location_replacement).
Proof.
  unfold location_regexp.
  induction s as [|c s IH]; intros rest Hrest.
  - cbn [JSON.escape String.append Transform.rename_location_tail].
    now rewrite scan_quote.
  - cbn [JSON.escape Transform.rename_location_tail]. rewrite append_assoc.
    destruct (Ascii.eqb c dq) eqn:Hc.
    + apply Ascii.eqb_eq in Hc; subst c.
      change (JSON.escape_char dq) with (String backslash (String dq EmptyString)).
      cbn [String.append andb].
      rewrite scan_other by reflexivity.
      pose proof (matches_escape_closed _ plain_literal s rest) as Hm.
      rewrite length_literal, matches_literal in Hm.
      destruct (String.eqb_spec s "ns3:Location") as [->|Hne].
      * change (JSON.escape "ns3:Location" ++ String dq rest)
          with (("ns3:Location" ++ String dq EmptyString) ++ rest).
        rewrite scan_match by reflexivity.
        reflexivity.
      * rewrite scan_quote by exact Hm.
        rewrite IH by exact Hrest. reflexivity.
    + cbn [andb].
      rewrite scan_no_quote by (apply escape_char_no_quote; exact Hc).
      rewrite IH by exact Hrest.
      cbn [JSON.escape]. now rewrite append_assoc.
Qed.

(** The first pass over a serialized string and what follows it. *)
Lemma location_token (s rest : string) :
  Transform.delimited rest = true ->
  RegExp.replace (JSON.quote s ++ rest) location_regexp location_replacement
  = JSON.quote (Transform.rename_location s)
    ++ RegExp.replace rest location_regexp location_replacement.
Proof.
  intros Hrest. apply delimited_no_location in Hrest.
  unfold JSON.quote, Transform.rename_location.
  cbn [String.append]. rewrite !append_assoc. cbn [String.append].
  pose proof (matches_escape_closed _ plain_literal s rest) as Hm.
  rewrite length_literal, matches_literal in Hm.
  pose proof (location_inside s rest Hrest) as Hin.
  unfold location_regexp in *.
  destruct (String.eqb_spec s "ns3:Location") as [->|Hne].
  - change (JSON.escape "ns3:Location" ++ String dq rest)
      with (("ns3:Location" ++ String dq EmptyString) ++ rest).
    rewrite scan_match by reflexivity.
    reflexivity.
  - rewrite scan_quote by exact Hm.
    rewrite Hin. reflexivity.
Qed.

(** ** Induction on values *)

Lemma value_ind' (P : value -> Prop) :
  P VUndefined -> P VNull -> (forall b, P (VBool b)) -> (forall n, P (VNum n)) ->
  (forall s, P (VStr s)) ->
  (forall l, Forall P l -> P (VArr l)) ->
  (forall ps, Forall (fun kx : string * value => P (snd kx)) ps -> P (VObj ps)) ->
  (forall e, P (VError e)) ->
  forall v, P v.
Proof.
  intros Hu Hn Hb Hnum Hs Ha Ho He.
  refine (fix IH (v : value) : P v :=
            match v with
            | VUndefined => Hu
            | VNull => Hn
            | VBool b => Hb b
            | VNum n => Hnum n
            | VStr s => Hs s
            | VArr l =>
                Ha l ((fix all (l : list value) : Forall P l :=
                         match l with
                         | [] => Forall_nil _
                         | x :: l' => Forall_cons x (IH x) (all l')
                         end) l)
            | VObj ps =>
                Ho ps ((fix all (ps : list (string * value))
                          : Forall (fun kx : string * value => P (snd kx)) ps :=
                          match ps with
                          | [] => Forall_nil _
                          | kx :: ps' => Forall_cons kx (IH (snd kx)) (all ps')
                          end) ps)
            | VError e => He e
            end).
Qed.

(** ** The text of a value *)

Lemma stringify_none (v : value) : JSON.stringify v = None <-> v = VUndefined.
Proof.
  split; [|intros ->; reflexivity].
  destruct v as [| |[|]|[lit| |neg]|s|l|ps|e]; simpl; intros H;
    try reflexivity; discriminate H.
Qed.

Lemma text_array (l : list value) :
  Transform.text (VArr l) = "[" ++ String.concat "," (map Transform.text l) ++ "]".
Proof. reflexivity. Qed.

Lemma stringify_object (ps : list (string * value)) :
  JSON.stringify (VObj ps)
  = Some ("{" ++ String.concat "," (Transform.members ps) ++ "}").
Proof.
  reflexivity.
Qed.

Lemma text_object (ps : list (string * value)) :
  Transform.text (VObj ps) = "{" ++ String.concat "," (Transform.members ps) ++ "}".
Proof. unfold Transform.text. now rewrite stringify_object. Qed.

Lemma concat_cons (sep x y : string) (l : list string) :
  String.concat sep (x :: y :: l) = x ++ sep ++ String.concat sep (y :: l).
Proof. reflexivity. Qed.

Lemma map_strings_undefined (f : string -> string) (v : value) :
  Transform.map_strings f v = VUndefined <-> v = VUndefined.
Proof. destruct v; simpl; split; intros H; try reflexivity; discriminate H. Qed.

Lemma well_formed_map_strings (f : string -> string) (v : value) :
  Transform.well_formed (Transform.map_strings f v) = Transform.well_formed v.
Proof.
  induction v as [| |b|n|s|l IH|ps IH|e] using value_ind'; try reflexivity.
  - cbn [Transform.map_strings Transform.well_formed].
    induction IH as [|x l Hx _ IHl]; [reflexivity|].
    cbn [map forallb]. now rewrite Hx, IHl.
  - cbn [Transform.map_strings Transform.well_formed].
    induction IH as [|[k x] ps Hx _ IHps]; [reflexivity|].
    cbn [map forallb fst snd] in *. now rewrite Hx, IHps.
Qed.

Lemma map_strings_compose (f g : string -> string) (v : value) :
  Transform.map_strings f (Transform.map_strings g v)
  = Transform.map_strings (fun s => f (g s)) v.
Proof.
  induction v as [| |b|n|s|l IH|ps IH|e] using value_ind'; try reflexivity.
  - cbn [Transform.map_strings]. f_equal. rewrite map_map.
    apply map_ext_in. intros x Hx. rewrite Forall_forall in IH. now apply IH.
  - cbn [Transform.map_strings]. f_equal. rewrite map_map.
    apply map_ext_in. intros [k x] Hx. cbn [fst snd].
    rewrite Forall_forall in IH. specialize (IH (k, x) Hx). cbn [snd] in IH.
    now rewrite IH.
Qed.

(** ** Number literals *)

Lemma number_char_no_quote (s : string) :
  Transform.all_chars JSON.is_number_char s = true -> Transform.no_quote s = true.
Proof.
  induction s as [|c s IH]; [reflexivity|].
  cbn [Transform.all_chars Transform.no_quote]. intros H.
  apply andb_true_iff in H as [Hc Hs]. rewrite (IH Hs), andb_true_r.
  destruct (Ascii.eqb_spec c dq) as [->|]; [discriminate Hc | reflexivity].
Qed.

Lemma digit_number_char (c : ascii) : is_digit c = true -> JSON.is_number_char c = true.
Proof. intros H. unfold JSON.is_number_char. now rewrite H. Qed.

Lemma skip_digits_chars (s : string) :
  Transform.all_chars JSON.is_number_char (JSON.skip_digits s) = true ->
  Transform.all_chars JSON.is_number_char s = true.
Proof.
  induction s as [|c s IH]; [reflexivity|].
  cbn [JSON.skip_digits]. destruct (is_digit c) eqn:Hc; [|exact (fun H => H)].
  intros H. cbn [Transform.all_chars]. now rewrite (digit_number_char c Hc), IH.
Qed.

Lemma skip_digits_empty (s : string) :
  JSON.is_empty (JSON.skip_digits s) = true ->
  Transform.all_chars JSON.is_number_char s = true.
Proof.
  intros H. apply skip_digits_chars.
  destruct (JSON.skip_digits s); [reflexivity | discriminate H].
Qed.

Lemma valid_exponent_chars (s : string) :
  JSON.valid_exponent s = true -> Transform.all_chars JSON.is_number_char s = true.
Proof.
  destruct s as [|e r]; [reflexivity|].
  cbn [JSON.valid_exponent Transform.all_chars]. intros H.
  apply andb_true_iff in H as [He H].
  assert (He' : JSON.is_number_char e = true).
  { unfold JSON.is_number_char. apply orb_true_iff in He as [-> | ->];
      now rewrite ?orb_true_r. }
  rewrite He'. cbn [andb].
  destruct r as [|g r']; [discriminate H|].
  cbn [Transform.all_chars].
  destruct (Ascii.eqb g "+" || Ascii.eqb g "-") eqn:Hg.
  - assert (Hg' : JSON.is_number_char g = true).
    { unfold JSON.is_number_char. apply orb_true_iff in Hg as [-> | ->];
        now rewrite ?orb_true_r. }
    rewrite Hg'. cbn [andb].
    destruct r' as [|d r'']; [discriminate H|].
    apply andb_true_iff in H as [Hd H].
    cbn [Transform.all_chars]. now rewrite (digit_number_char d Hd), skip_digits_empty.
  - apply andb_true_iff in H as [Hd H].
    now rewrite (digit_number_char g Hd), skip_digits_empty.
Qed.

Lemma valid_fraction_chars (s : string) :
  JSON.valid_fraction s = true -> Transform.all_chars JSON.is_number_char s = true.
Proof.
  unfold JSON.valid_fraction.
  destruct s as [|c [|d r]]; try apply valid_exponent_chars.
  destruct (Ascii.eqb_spec c ".") as [->|]; [|apply valid_exponent_chars].
  intros H. apply andb_true_iff in H as [Hd H].
  cbn [Transform.all_chars]. rewrite (digit_number_char d Hd).
  apply valid_exponent_chars in H. now rewrite (skip_digits_chars r H).
Qed.

Lemma valid_integer_chars (s : string) :
  JSON.valid_integer s = true -> Transform.all_chars JSON.is_number_char s = true.
Proof.
  destruct s as [|c r]; [discriminate|].
  cbn [JSON.valid_integer Transform.all_chars].
  destruct (Ascii.eqb_spec c "0") as [->|].
  - intros H. now rewrite (valid_fraction_chars r H).
  - intros H. apply andb_true_iff in H as [Hc H].
    rewrite (digit_number_char c Hc).
    apply valid_fraction_chars in H. now rewrite (skip_digits_chars r H).
Qed.

Lemma valid_number_chars (lit : string) :
  JSON.valid_number lit = true -> Transform.all_chars JSON.is_number_char lit = true.
Proof.
  destruct lit as [|c r]; [discriminate|].
  cbn [JSON.valid_number].
  destruct (Ascii.eqb_spec c "-") as [->|]; [|apply valid_integer_chars].
  intros H. cbn [Transform.all_chars]. now rewrite (valid_integer_chars r H).
Qed.

(** ** A pass over the whole text *)

Section Pass.

Variable tail : RegExp.pattern.
Variable replacement : string.
Variable f : string -> string.

Hypothesis token : forall s rest,
  Transform.delimited rest = true ->
  RegExp.replace (JSON.quote s ++ rest) (Ascii.eqb dq :: tail) replacement
  = JSON.quote (f s) ++ RegExp.replace rest (Ascii.eqb dq :: tail) replacement.

Lemma pass_elements (l : list value) :
  Forall (fun x => forall rest, Transform.delimited rest = true ->
            RegExp.replace (Transform.text x ++ rest) (Ascii.eqb dq :: tail) replacement
            = Transform.text (Transform.map_strings f x)
              ++ RegExp.replace rest (Ascii.eqb dq :: tail) replacement) l ->
  forall rest, Transform.delimited rest = true ->
    RegExp.replace (String.concat "," (map Transform.text l) ++ rest)
      (Ascii.eqb dq :: tail) replacement
    = String.concat "," (map Transform.text (map (Transform.map_strings f) l))
      ++ RegExp.replace rest (Ascii.eqb dq :: tail) replacement.
Proof.
  induction 1 as [|x l Hx Hl IH]; intros rest Hrest; [reflexivity|].
  destruct l as [|y l].
  - cbn [map String.concat]. now apply Hx.
  - cbn [map] in *. rewrite !concat_cons, !append_assoc.
    rewrite Hx by reflexivity.
    cbn [String.append]. rewrite scan_other by reflexivity.
    now rewrite IH.
Qed.

Lemma pass_members (ps : list (string * value)) :
  Forall (fun kx : string * value => forall rest, Transform.delimited rest = true ->
            RegExp.replace (Transform.text (snd kx) ++ rest) (Ascii.eqb dq :: tail) replacement
            = Transform.text (Transform.map_strings f (snd kx))
              ++ RegExp.replace rest (Ascii.eqb dq :: tail) replacement) ps ->
  forall rest, Transform.delimited rest = true ->
    RegExp.replace (String.concat "," (Transform.members ps) ++ rest)
      (Ascii.eqb dq :: tail) replacement
    = String.concat ","
        (Transform.members
           (map (fun kx : string * value =>
                   (f (fst kx), Transform.map_strings f (snd kx))) ps))
      ++ RegExp.replace rest (Ascii.eqb dq :: tail) replacement.
Proof.
  induction 1 as [|[k x] ps Hx Hps IH]; intros rest Hrest; [reflexivity|].
  cbn [map Transform.members fst snd] in *.
  destruct (JSON.stringify x) as [t|] eqn:Ex.
  - assert (Et : Transform.text x = t) by (unfold Transform.text; now rewrite Ex).
    destruct (JSON.stringify (Transform.map_strings f x)) as [t'|] eqn:Ex'.
    2:{ apply stringify_none, map_strings_undefined in Ex'. subst x. discriminate Ex. }
    assert (Et' : Transform.text (Transform.map_strings f x) = t')
      by (unfold Transform.text; now rewrite Ex').
    rewrite Et, Et' in Hx.
    assert (Hone : forall rest', Transform.delimited rest' = true ->
              RegExp.replace ((JSON.quote k ++ ":" ++ t) ++ rest')
                (Ascii.eqb dq :: tail) replacement
              = (JSON.quote (f k) ++ ":" ++ t')
                ++ RegExp.replace rest' (Ascii.eqb dq :: tail) replacement).
    { intros rest' Hrest'. rewrite !append_assoc.
      rewrite token by reflexivity.
      cbn [String.append]. rewrite scan_other by reflexivity.
      now rewrite Hx. }
    destruct (Transform.members ps) as [|m ms] eqn:Em.
    + specialize (IH rest Hrest). cbn [String.concat String.append] in IH.
      destruct (Transform.members (map _ ps)) as [|m' ms'] eqn:Em'.
      * cbn [String.concat]. now apply Hone.
      * exfalso. clear -Em Em'. revert m' ms' Em'.
        induction ps as [|[k' x'] ps IHps]; intros m' ms' Em'; [discriminate Em'|].
        cbn [map Transform.members fst snd] in *.
        destruct (JSON.stringify x') eqn:E1; [discriminate Em|].
        apply stringify_none in E1. subst x'. cbn in Em'. eauto.
    + destruct (Transform.members (map _ ps)) as [|m' ms'] eqn:Em'.
      * exfalso. clear -Em Em'. revert m ms Em.
        induction ps as [|[k' x'] ps IHps]; intros m ms Em; [discriminate Em|].
        cbn [map Transform.members fst snd] in *.
        destruct (JSON.stringify x') eqn:E1.
        -- destruct (JSON.stringify (Transform.map_strings f x')) eqn:E2;
             [discriminate Em'|].
           apply stringify_none, map_strings_undefined in E2. subst x'. discriminate E1.
        -- apply stringify_none in E1. subst x'. cbn in Em'. eauto.
      * rewrite !concat_cons.
        rewrite (append_assoc (JSON.quote k ++ ":" ++ t)).
        rewrite Hone by reflexivity.
        cbn [String.append]. rewrite scan_other by reflexivity.
        rewrite IH by exact Hrest.
        now rewrite !append_assoc.
  - apply stringify_none in Ex. subst x. cbn [Transform.map_strings JSON.stringify].
    now apply IH.
Qed.

(** The pass rewrites the text of a tree into the text of the tree whose
    strings are rewritten. *)
Lemma pass_text (v : value) :
  Transform.well_formed v = true ->
  forall rest, Transform.delimited rest = true ->
    RegExp.replace (Transform.text v ++ rest) (Ascii.eqb dq :: tail) replacement
    = Transform.text (Transform.map_strings f v)
      ++ RegExp.replace rest (Ascii.eqb dq :: tail) replacement.
Proof.
  induction v as [| |b|n|s|l IH|ps IH|e] using value_ind'; intros Hwf rest Hrest;
    try (apply scan_no_quote; reflexivity).
  - destruct b; apply scan_no_quote; reflexivity.
  - destruct n as [lit| |neg]; try (apply scan_no_quote; reflexivity).
    apply scan_no_quote, number_char_no_quote, valid_number_chars. exact Hwf.
  - now apply token.
  - cbn [Transform.map_strings]. rewrite !text_array, !append_assoc.
    cbn [String.append]. rewrite scan_other by reflexivity.
    rewrite pass_elements.
    + cbn [String.append]. now rewrite scan_other by reflexivity.
    + cbn [Transform.well_formed] in Hwf. rewrite forallb_forall in Hwf.
      rewrite Forall_forall in *. intros x Hx. apply IH; auto.
    + reflexivity.
  - cbn [Transform.map_strings]. rewrite !text_object, !append_assoc.
    cbn [String.append]. rewrite scan_other by reflexivity.
    rewrite pass_members.
    + cbn [String.append]. now rewrite scan_other by reflexivity.
    + cbn [Transform.well_formed] in Hwf. rewrite forallb_forall in Hwf.
      rewrite Forall_forall in *. intros x Hx. apply IH; auto.
    + reflexivity.
Qed.

End Pass.

(** ** Reading back what [JSON.stringify] prints *)

Lemma parse_string_escape (s rest : string) :
  JSON.parse_string (JSON.escape s ++ String dq rest) = Some (s, rest).
Proof.
  induction s as [|c s IH]; [reflexivity|].
  cbn [JSON.escape]. rewrite append_assoc, parse_string_escape_char, IH.
  reflexivity.
Qed.

Lemma delimited_not_number (rest : string) :
  Transform.delimited rest = true ->
  match rest with
  | EmptyString => True
  | String c _ => JSON.is_number_char c = false
  end.
Proof.
  destruct rest as [|c rest]; [trivial|].
  cbn [Transform.delimited]. each_ascii c; intros H; try reflexivity; discriminate H.
Qed.

Lemma span_number_literal (lit rest : string) :
  Transform.all_chars JSON.is_number_char lit = true ->
  Transform.delimited rest = true ->
  JSON.span_number (lit ++ rest) = (lit, rest).
Proof.
  intros Hlit Hrest. induction lit as [|c lit IH].
  - apply delimited_not_number in Hrest.
    destruct rest as [|c rest]; [reflexivity|].
    cbn [String.append JSON.span_number]. now rewrite Hrest.
  - cbn [Transform.all_chars] in Hlit. apply andb_true_iff in Hlit as [Hc Hlit].
    cbn [String.append JSON.span_number]. now rewrite Hc, (IH Hlit).
Qed.

Lemma number_char_dispatch (c : ascii) :
  JSON.is_number_char c = true ->
  JSON.is_ws c = false /\ Ascii.eqb c "{" = false /\ Ascii.eqb c "[" = false
  /\ Ascii.eqb c dq = false /\ Ascii.eqb c "n" = false /\ Ascii.eqb c "t" = false
  /\ Ascii.eqb c "f" = false /\ Ascii.eqb c "]" = false /\ Ascii.eqb c "}" = false.
Proof. each_ascii c; intros H; try discriminate H; repeat split. Qed.

Lemma parse_value_null (fuel : nat) (rest : string) :
  JSON.parse_value (S fuel) ("null" ++ rest) = Some (VNull, rest).
Proof. reflexivity. Qed.

Lemma parse_value_true (fuel : nat) (rest : string) :
  JSON.parse_value (S fuel) ("true" ++ rest) = Some (VBool true, rest).
Proof. reflexivity. Qed.

Lemma parse_value_false (fuel : nat) (rest : string) :
  JSON.parse_value (S fuel) ("false" ++ rest) = Some (VBool false, rest).
Proof. reflexivity. Qed.

Lemma parse_value_string (fuel : nat) (s rest : string) :
  JSON.parse_value (S fuel) (JSON.quote s ++ rest) = Some (VStr s, rest).
Proof.
  unfold JSON.quote. cbn [String.append]. rewrite append_assoc. cbn [String.append].
  change (JSON.parse_value (S fuel) (String dq (JSON.escape s ++ String dq rest)))
    with (match JSON.parse_string (JSON.escape s ++ String dq rest) with
          | Some (str, rest') => Some (VStr str, rest')
          | None => None
          end).
  now rewrite parse_string_escape.
Qed.

Lemma parse_value_number (fuel : nat) (lit rest : string) :
  JSON.valid_number lit = true ->
  Transform.delimited rest = true ->
  JSON.parse_value (S fuel) (lit ++ rest) = Some (VNum (Finite lit), rest).
Proof.
  intros Hv Hrest. pose proof (valid_number_chars lit Hv) as Hch.
  destruct lit as [|c lit]; [discriminate Hv|].
  pose proof Hch as Hc. cbn [Transform.all_chars] in Hc.
  apply andb_true_iff in Hc as [Hc _].
  destruct (number_char_dispatch c Hc) as (Hws & H1 & H2 & H3 & H4 & H5 & H6 & _).
  cbn [String.append JSON.parse_value JSON.skip_ws].
  rewrite Hws, H1, H2, H3, H4, H5, H6.
  change (String c (lit ++ rest)) with (String c lit ++ rest).
  now rewrite span_number_literal, Hv.
Qed.

Lemma text_opens (v : value) :
  Transform.well_formed v = true ->
  exists c t, Transform.text v = String c t
              /\ JSON.is_ws c = false /\ Ascii.eqb c "]" = false.
Proof.
  destruct v as [| |[|]|[lit| |neg]|s|l|ps|e]; intros Hwf;
    try (eexists _, _; repeat split; reflexivity).
  - pose proof (valid_number_chars lit Hwf) as Hch.
    destruct lit as [|c lit]; [discriminate Hwf|].
    cbn [Transform.all_chars] in Hch. apply andb_true_iff in Hch as [Hc _].
    destruct (number_char_dispatch c Hc) as (Hws & _ & _ & _ & _ & _ & _ & Hb & _).
    exists c, lit. repeat split; assumption.
Qed.

Lemma parse_value_array_empty (fuel : nat) (rest : string) :
  JSON.parse_value (S fuel) ("[" ++ "]" ++ rest) = Some (VArr [], rest).
Proof. reflexivity. Qed.

Lemma parse_value_array (fuel : nat) (c : ascii) (body : string) :
  JSON.is_ws c = false -> Ascii.eqb c "]" = false ->
  JSON.parse_value (S fuel) ("[" ++ String c body)
  = JSON.parse_elements fuel (String c body) [].
Proof.
  intros Hws Hc.
  change (JSON.parse_value (S fuel) ("[" ++ String c body))
    with (match JSON.skip_ws (String c body) with
          | String c' rest' =>
              if Ascii.eqb c' "]" then Some (VArr [], rest')
              else JSON.parse_elements fuel (String c body) []
          | EmptyString => None
          end).
  cbn [JSON.skip_ws]. now rewrite Hws, Hc.
Qed.

Lemma parse_elements_step (fuel : nat) (s : string) (acc : list value)
      (v : value) (c : ascii) (rest : string) :
  JSON.parse_value fuel s = Some (v, String c rest) ->
  JSON.is_ws c = false ->
  JSON.parse_elements (S fuel) s acc
  = if Ascii.eqb c "," then JSON.parse_elements fuel rest (acc ++ [v])%list
    else if Ascii.eqb c "]" then Some (VArr (acc ++ [v])%list, rest)
    else None.
Proof.
  intros Hv Hws. cbn [JSON.parse_elements]. rewrite Hv.
  cbn [JSON.skip_ws]. now rewrite Hws.
Qed.

Lemma parse_elements_text (l : list value) :
  Forall (fun x => forall fuel rest, Transform.size x <= fuel ->
            Transform.delimited rest = true ->
            JSON.parse_value fuel (Transform.text x ++ rest)
            = Some (Transform.reparsed x, rest)) l ->
  l <> [] ->
  forall fuel acc rest,
    Transform.elements_size l <= fuel ->
    JSON.parse_elements fuel
      (String.concat "," (map Transform.text l) ++ "]" ++ rest) acc
    = Some (VArr (acc ++ map Transform.reparsed l)%list, rest).
Proof.
  induction 1 as [|x l Hx Hl IH]; intros Hne fuel acc rest Hfuel; [congruence|].
  cbn [Transform.elements_size] in Hfuel.
  destruct fuel as [|fuel]; [lia|].
  destruct l as [|y l].
  - cbn [map String.concat].
    rewrite (parse_elements_step fuel _ acc (Transform.reparsed x) "]" rest);
      [reflexivity | apply Hx; [lia | reflexivity] | reflexivity].
  - cbn [map] in *. rewrite concat_cons, !append_assoc.
    rewrite (parse_elements_step fuel _ acc (Transform.reparsed x) ","
               (String.concat "," (Transform.text y :: map Transform.text l)
                ++ "]" ++ rest));
      [| apply Hx; [lia | reflexivity] | reflexivity].
    cbn [Ascii.eqb Bool.eqb].
    rewrite IH; [| discriminate | lia].
    now rewrite <- app_assoc.
Qed.

Lemma members_empty_build (ps acc : list (string * value)) :
  Transform.members ps = [] -> Transform.build ps acc = acc.
Proof.
  induction ps as [|[k x] ps IH]; intros H; [reflexivity|].
  cbn [Transform.members] in H.
  destruct (JSON.stringify x) eqn:Ex; [discriminate H|].
  apply stringify_none in Ex. subst x. cbn [Transform.build]. now apply IH.
Qed.

Lemma build_defined (k : string) (x : value) (ps acc : list (string * value)) :
  x <> VUndefined ->
  Transform.build ((k, x) :: ps) acc
  = Transform.build ps (JSON.define_property acc k (Transform.reparsed x)).
Proof. intros Hx. destruct x; try reflexivity. congruence. Qed.

Lemma reparsed_object (ps : list (string * value)) :
  Transform.reparsed (VObj ps) = VObj (Transform.build ps []).
Proof. reflexivity. Qed.

Lemma size_array (l : list value) :
  Transform.size (VArr l) = S (Transform.elements_size l).
Proof. reflexivity. Qed.

Lemma size_object (ps : list (string * value)) :
  Transform.size (VObj ps) = S (Transform.properties_size ps).
Proof. reflexivity. Qed.

Lemma properties_size_defined (k : string) (x : value) (ps : list (string * value)) :
  x <> VUndefined ->
  Transform.properties_size ((k, x) :: ps)
  = S (Transform.size x + Transform.properties_size ps).
Proof. intros Hx. destruct x; try reflexivity. congruence. Qed.

Lemma parse_value_object_empty (fuel : nat) (rest : string) :
  JSON.parse_value (S fuel) ("{" ++ "}" ++ rest) = Some (VObj [], rest).
Proof. reflexivity. Qed.

Lemma parse_value_object (fuel : nat) (body : string) :
  JSON.parse_value (S fuel) ("{" ++ String dq body)
  = JSON.parse_members fuel (String dq body) [].
Proof. reflexivity. Qed.

Lemma parse_members_step (fuel : nat) (k t : string) (acc : list (string * value))
      (v : value) (c : ascii) (rest : string) :
  JSON.parse_value fuel (t ++ String c rest) = Some (v, String c rest) ->
  JSON.is_ws c = false ->
  JSON.parse_members (S fuel) ((JSON.quote k ++ ":" ++ t) ++ String c rest) acc
  = if Ascii.eqb c ","
    then JSON.parse_members fuel rest (JSON.define_property acc k v)
    else if Ascii.eqb c "}"
    then Some (VObj (JSON.define_property acc k v), rest)
    else None.
Proof.
  intros Hv Hws. unfold JSON.quote.
  cbn [String.append]. rewrite !append_assoc. cbn [String.append].
  change (JSON.parse_members (S fuel)
            (String dq (JSON.escape k ++ String dq (String ":" (t ++ String c rest)))) acc)
    with (match JSON.parse_string
                  (JSON.escape k ++ String dq (String ":" (t ++ String c rest))) with
          | None => None
          | Some (k, s2) =>
              match JSON.skip_ws s2 with
              | String c s3 =>
                  if Ascii.eqb c ":" then
                    match JSON.parse_value fuel s3 with
                    | None => None
                    | Some (v, s4) =>
                        match JSON.skip_ws s4 with
                        | String c' s5 =>
                            if Ascii.eqb c' ","
                            then JSON.parse_members fuel s5 (JSON.define_property acc k v)
                            else if Ascii.eqb c' "}"
                            then Some (VObj (JSON.define_property acc k v), s5)
                            else None
                        | EmptyString => None
                        end
                    end
                  else None
              | EmptyString => None
              end
          end).
  rewrite parse_string_escape.
  change (JSON.skip_ws (String ":" (t ++ String c rest)))
    with (String ":" (t ++ String c rest)).
  change (Ascii.eqb ":" ":") with true. cbn iota.
  rewrite Hv. cbn [JSON.skip_ws]. now rewrite Hws.
Qed.

Lemma members_head (ps : list (string * value)) (m : string) (ms : list string) :
  Transform.members ps = m :: ms -> exists u, m = String dq u.
Proof.
  induction ps as [|[k x] ps IH]; intros H; [discriminate H|].
  cbn [Transform.members] in H. destruct (JSON.stringify x) as [t|].
  - injection H as <- _. eexists. reflexivity.
  - now apply IH.
Qed.

Lemma parse_members_text (ps : list (string * value)) :
  Forall (fun kx : string * value => forall fuel rest,
            Transform.size (snd kx) <= fuel ->
            Transform.delimited rest = true ->
            JSON.parse_value fuel (Transform.text (snd kx) ++ rest)
            = Some (Transform.reparsed (snd kx), rest)) ps ->
  Transform.members ps <> [] ->
  forall fuel acc rest,
    Transform.properties_size ps <= fuel ->
    JSON.parse_members fuel
      (String.concat "," (Transform.members ps) ++ "}" ++ rest) acc
    = Some (VObj (Transform.build ps acc), rest).
Proof.
  induction 1 as [|[k x] ps Hx Hps IH]; intros Hne fuel acc rest Hfuel;
    [exfalso; apply Hne; reflexivity|].
  cbn [snd] in Hx. cbn [Transform.members] in *.
  destruct (JSON.stringify x) as [t|] eqn:Ex.
  2:{ apply stringify_none in Ex. subst x. cbn [Transform.build]. now apply IH. }
  assert (Hdef : x <> VUndefined) by (intros ->; discriminate Ex).
  assert (Et : Transform.text x = t) by (unfold Transform.text; now rewrite Ex).
  rewrite properties_size_defined in Hfuel by exact Hdef.
  rewrite build_defined by exact Hdef.
  destruct fuel as [|fuel]; [lia|].
  destruct (Transform.members ps) as [|m ms] eqn:Em.
  - cbn [String.concat].
    etransitivity.
    { apply (parse_members_step fuel k t acc (Transform.reparsed x) "}" rest);
        [| reflexivity].
      rewrite <- Et. apply Hx; [lia | reflexivity]. }
    cbn [Ascii.eqb Bool.eqb]. now rewrite members_empty_build.
  - rewrite concat_cons, (append_assoc (JSON.quote k ++ ":" ++ t)).
    etransitivity.
    { apply (parse_members_step fuel k t acc (Transform.reparsed x) ","
               (String.concat "," (m :: ms) ++ "}" ++ rest));
        [| reflexivity].
      rewrite <- Et. apply Hx; [lia | reflexivity]. }
    cbn [Ascii.eqb Bool.eqb]. apply IH; [discriminate | lia].
Qed.

Lemma concat_head (c : ascii) (t : string) (l : list string) :
  exists t', String.concat "," (String c t :: l) = String c t'.
Proof. destruct l; eexists; reflexivity. Qed.

(** The parser reads the text of a tree back, given fuel for its size. *)
Lemma parse_text (v : value) :
  Transform.well_formed v = true ->
  forall fuel rest,
    Transform.size v <= fuel ->
    Transform.delimited rest = true ->
    JSON.parse_value fuel (Transform.text v ++ rest)
    = Some (Transform.reparsed v, rest).
Proof.
  induction v as [| |b|n|s|l IH|ps IH|e] using value_ind';
    intros Hwf fuel rest Hfuel Hrest;
    (destruct fuel as [|fuel]; [cbn in Hfuel; lia|]).
  - apply parse_value_null.
  - apply parse_value_null.
  - destruct b; [apply parse_value_true | apply parse_value_false].
  - destruct n as [lit| |neg]; try apply parse_value_null.
    now apply parse_value_number.
  - apply parse_value_string.
  - rewrite size_array in Hfuel. rewrite text_array, !append_assoc.
    cbn [Transform.well_formed] in Hwf. rewrite forallb_forall in Hwf.
    destruct l as [|x l]; [apply parse_value_array_empty|].
    destruct (text_opens x) as (c & t & Ex & Hws & Hc); [apply Hwf; now left|].
    destruct (concat_head c t (map Transform.text l)) as [t' Et'].
    cbn [map Transform.reparsed]. rewrite Ex at 1.
    transitivity (JSON.parse_elements fuel
                    (String.concat "," (map Transform.text (x :: l)) ++ "]" ++ rest) []).
    + cbn [map]. rewrite Ex, Et'. now apply parse_value_array.
    + rewrite parse_elements_text; [reflexivity | | discriminate | lia].
      rewrite Forall_forall in *. intros y Hy fuel' rest' Hf Hr.
      apply IH; auto.
  - rewrite size_object in Hfuel. rewrite text_object, !append_assoc, reparsed_object.
    cbn [Transform.well_formed] in Hwf. rewrite forallb_forall in Hwf.
    destruct (Transform.members ps) as [|m ms] eqn:Em.
    + rewrite members_empty_build by exact Em. apply parse_value_object_empty.
    + destruct (members_head ps m ms Em) as [u ->].
      destruct (concat_head dq u ms) as [t' Et'].
      transitivity (JSON.parse_members fuel
                      (String.concat "," (Transform.members ps) ++ "}" ++ rest) []).
      * rewrite Em, Et'. apply parse_value_object.
      * apply parse_members_text; [| rewrite Em; discriminate | lia].
        rewrite Forall_forall in *. intros y Hy fuel' rest' Hf Hr.
        apply IH; auto.
  - apply parse_value_object_empty.
Qed.

Lemma elements_size_length (l : list value) :
  Forall (fun x => Transform.size x <= String.length (Transform.text x)) l ->
  Transform.elements_size l
  <= String.length (String.concat "," (map Transform.text l)) + 1.
Proof.
  induction 1 as [|x l Hx Hl IH]; [cbn; lia|].
  destruct l as [|y l].
  - cbn [map String.concat Transform.elements_size]. lia.
  - cbn [map] in *. rewrite concat_cons, !length_append.
    cbn [Transform.elements_size] in *. cbn [String.length]. lia.
Qed.

Lemma properties_size_length (ps : list (string * value)) :
  Forall (fun kx : string * value =>
            Transform.size (snd kx) <= String.length (Transform.text (snd kx))) ps ->
  Transform.properties_size ps
  <= String.length (String.concat "," (Transform.members ps)) + 1.
Proof.
  induction 1 as [|[k x] ps Hx Hps IH]; [cbn; lia|].
  cbn [snd] in Hx. cbn [Transform.members].
  destruct (JSON.stringify x) as [t|] eqn:Ex.
  2:{ apply stringify_none in Ex. subst x. exact IH. }
  assert (Hdef : x <> VUndefined) by (intros ->; discriminate Ex).
  assert (Et : Transform.text x = t) by (unfold Transform.text; now rewrite Ex).
  rewrite properties_size_defined by exact Hdef. rewrite Et in Hx.
  assert (Hm : String.length t + 3 <= String.length (JSON.quote k ++ ":" ++ t)).
  { unfold JSON.quote. cbn [String.append String.length].
    rewrite !length_append. cbn [String.length]. lia. }
  destruct (Transform.members ps) as [|m ms].
  - cbn [String.concat] in *. cbn [String.length] in IH. lia.
  - rewrite concat_cons, !length_append. cbn [String.length]. lia.
Qed.

Lemma size_text (v : value) :
  Transform.well_formed v = true ->
  Transform.size v <= String.length (Transform.text v).
Proof.
  induction v as [| |b|n|s|l IH|ps IH|e] using value_ind'; intros Hwf;
    try (cbn; lia).
  - destruct b; cbn; lia.
  - destruct n as [lit| |neg]; try (cbn; lia).
    destruct lit; [discriminate Hwf | cbn; lia].
  - rewrite size_array, text_array, !length_append. cbn [String.length].
    cbn [Transform.well_formed] in Hwf. rewrite forallb_forall in Hwf.
    enough (Transform.elements_size l
            <= String.length (String.concat "," (map Transform.text l)) + 1) by lia.
    apply elements_size_length. rewrite Forall_forall in *. auto.
  - rewrite size_object, text_object, !length_append. cbn [String.length].
    cbn [Transform.well_formed] in Hwf. rewrite forallb_forall in Hwf.
    enough (Transform.properties_size ps
            <= String.length (String.concat "," (Transform.members ps)) + 1) by lia.
    apply properties_size_length. rewrite Forall_forall in *.
    intros y Hy. apply IH; auto.
Qed.

(** [JSON.parse (JSON.stringify v)] *)
Lemma parse_stringify (v : value) :
  Transform.well_formed v = true ->
  JSON.parse (Transform.text v) = Some (Transform.reparsed v).
Proof.
  intros Hwf. unfold JSON.parse.
  pose proof (parse_text v Hwf (S (String.length (Transform.text v))) EmptyString) as H.
  rewrite append_nil_r in H. rewrite H; [reflexivity | | reflexivity].
  pose proof (size_text v Hwf). lia.
Qed.

Lemma replace_empty (p : RegExp.pattern) (r : string) :
  RegExp.replace EmptyString p r = EmptyString.
Proof. reflexivity. Qed.

(** ** [replaceKeys] as a tree transformation *)

Lemma replaceKeys_transformed (v : value) :
  v <> VUndefined ->
  Transform.well_formed v = true ->
  replaceKeys v = inr (Transform.transformed v).
Proof.
  intros Hdef Hwf. unfold replaceKeys, Transform.transformed.
  destruct (JSON.stringify v) as [t|] eqn:Ev;
    [| apply stringify_none in Ev; contradiction].
  assert (Et : t = Transform.text v) by (unfold Transform.text; now rewrite Ev).
  subst t.
  pose proof (pass_text _ _ _ location_token v Hwf EmptyString eq_refl) as H1.
  rewrite append_nil_r, replace_empty, append_nil_r in H1.
  fold location_regexp in H1. rewrite H1.
  assert (Hwf' : Transform.well_formed
                   (Transform.map_strings Transform.rename_location v) = true)
    by now rewrite well_formed_map_strings.
  pose proof (pass_text _ _ _ namespace_token _ Hwf' EmptyString eq_refl) as H2.
  rewrite append_nil_r, replace_empty, append_nil_r in H2.
  fold namespace_regexp in H2. rewrite H2.
  rewrite parse_stringify by now rewrite well_formed_map_strings.
  now rewrite map_strings_compose.
Qed.

(** On a key without a quote in it, the two passes do what the function is
    named after. *)
Lemma rename_location_tail_plain (k : string) :
  Transform.no_quote k = true -> Transform.rename_location_tail k = k.
Proof.
  induction k as [|c k IH]; [reflexivity|].
  cbn [Transform.no_quote Transform.rename_location_tail]. intros H.
  apply andb_true_iff in H as [Hc Hk]. apply negb_true_iff in Hc.
  rewrite Hc. cbn [andb]. now rewrite IH.
Qed.

Lemma replace_plain (k : string) (tail : RegExp.pattern) (r : string) :
  Transform.no_quote k = true ->
  RegExp.replace k (Ascii.eqb dq :: tail) r = k.
Proof.
  intros H. rewrite <- (append_nil_r k) at 1.
  rewrite scan_no_quote by exact H. now rewrite replace_empty, append_nil_r.
Qed.

Lemma namespace_matches (k : string) :
  RegExp.matches [Ascii.eqb "n"; Ascii.eqb "s"; is_digit; Ascii.eqb ":"]%char k
  = match k with
    | String n (String s (String d (String c _))) =>
        Ascii.eqb n "n" && Ascii.eqb s "s" && is_digit d && Ascii.eqb c ":"
    | _ => false
    end.
Proof.
  destruct k as [|n [|s [|d [|c rest]]]]; cbn [RegExp.matches];
    rewrite ?andb_false_r, ?andb_true_r; try reflexivity.
  rewrite (Ascii.eqb_sym "n" n), (Ascii.eqb_sym "s" s), (Ascii.eqb_sym ":" c).
  now rewrite !andb_assoc.
Qed.

Lemma rewrite_key (k : string) :
  Transform.no_quote k = true -> Transform.rewrite k = Transform.rename_key k.
Proof.
  intros Hk. unfold Transform.rewrite, Transform.rename_location, Transform.rename_key.
  destruct (String.eqb_spec k "ns3:Location") as [->|Hne]; [reflexivity|].
  rewrite rename_location_tail_plain by exact Hk.
  unfold Transform.strip_namespace, namespace_regexp.
  pose proof (namespace_matches k) as Hm.
  destruct k as [|n [|s [|d [|c rest]]]];
    try (rewrite scan_quote by exact Hm; now rewrite replace_plain by exact Hk).
  destruct (Ascii.eqb n "n" && Ascii.eqb s "s" && is_digit d && Ascii.eqb c ":").
  - assert (Hrest : Transform.no_quote rest = true).
    { cbn [Transform.no_quote] in Hk. repeat (apply andb_true_iff in Hk as [_ Hk]).
      exact Hk. }
    change (String n (String s (String d (String c rest))))
      with (String n (String s (String d (String c EmptyString))) ++ rest).
    rewrite scan_match; [| exact Hm | reflexivity].
    unfold namespace_replacement. cbn [String.append].
    now rewrite replace_plain.
  - rewrite scan_quote by exact Hm. now rewrite replace_plain by exact Hk.
Qed.

(** ** Where [replaceKeys] renames the keys and nothing else *)

Lemma has_key_in (k : string) (acc : list (string * value)) :
  ~ In k (map fst acc) -> JSON.has_key k acc = false.
Proof.
  induction acc as [|[k' v'] acc IH]; intros H; [reflexivity|].
  cbn [JSON.has_key]. cbn [map fst In] in H.
  destruct (String.eqb_spec k k') as [->|]; [tauto|].
  apply IH. tauto.
Qed.

Lemma define_property_new (acc : list (string * value)) (k : string) (v : value) :
  ~ In k (map fst acc) -> JSON.array_index k = None ->
  JSON.define_property acc k v = (acc ++ [(k, v)])%list.
Proof.
  intros Hin Hidx. unfold JSON.define_property.
  now rewrite (has_key_in k acc Hin), Hidx.
Qed.

Lemma plain_tree_elements (l : list value) :
  Transform.plain_tree (VArr l) <-> Forall Transform.plain_tree l.
Proof.
  induction l as [|x l IH]; [split; constructor|].
  split.
  - intros [Hx Hl]. constructor; [exact Hx | now apply IH].
  - intros H. inversion H as [|? ? Hx Hl]; subst. split; [exact Hx | now apply IH].
Qed.

Lemma plain_tree_properties (ps : list (string * value)) :
  Transform.plain_tree (VObj ps) <->
  Forall (fun kx : string * value =>
            Transform.no_quote (fst kx) = true
            /\ JSON.array_index (Transform.rename_key (fst kx)) = None
            /\ Transform.plain_tree (snd kx)) ps
  /\ NoDup (map (fun kx : string * value => Transform.rename_key (fst kx)) ps).
Proof.
  cbn [Transform.plain_tree].
  enough (H : forall ps : list (string * value),
             (fix all (ps : list (string * value)) : Prop :=
                match ps with
                | [] => True
                | (k, x) :: rest =>
                    Transform.no_quote k = true
                    /\ JSON.array_index (Transform.rename_key k) = None
                    /\ Transform.plain_tree x /\ all rest
                end) ps
             <-> Forall (fun kx : string * value =>
                           Transform.no_quote (fst kx) = true
                           /\ JSON.array_index (Transform.rename_key (fst kx)) = None
                           /\ Transform.plain_tree (snd kx)) ps)
    by (rewrite H; reflexivity).
  clear ps. induction ps as [|[k x] ps IH]; [split; constructor|].
  split.
  - intros (H1 & H2 & H3 & H4). constructor; [now repeat split | now apply IH].
  - intros H. inversion H as [|? ? (H1 & H2 & H3) H4]; subst.
    repeat split; try assumption. now apply IH.
Qed.

Lemma plain_tree_defined (v : value) : Transform.plain_tree v -> v <> VUndefined.
Proof. intros H ->. exact H. Qed.

Lemma plain_tree_well_formed (v : value) :
  Transform.plain_tree v -> Transform.well_formed v = true.
Proof.
  induction v as [| |b|n|s|l IH|ps IH|e] using value_ind'; intros H; try reflexivity.
  - destruct n as [lit| |neg]; [exact H | destruct H | destruct H].
  - apply plain_tree_elements in H. cbn [Transform.well_formed].
    apply forallb_forall. rewrite Forall_forall in *. auto.
  - apply plain_tree_properties in H as [H _]. cbn [Transform.well_formed].
    apply forallb_forall. rewrite Forall_forall in *.
    intros kx Hkx. apply IH; [exact Hkx | apply (H kx Hkx)].
Qed.

Lemma build_plain (ps acc : list (string * value)) :
  Forall (fun kx : string * value =>
            Transform.no_quote (fst kx) = true
            /\ JSON.array_index (Transform.rename_key (fst kx)) = None
            /\ Transform.plain_tree (snd kx)
            /\ Transform.reparsed (Transform.map_strings Transform.rewrite (snd kx))
               = Transform.rename_keys (snd kx)) ps ->
  NoDup (map fst acc ++ map (fun kx : string * value => Transform.rename_key (fst kx)) ps) ->
  Transform.build
    (map (fun kx : string * value =>
            (Transform.rewrite (fst kx), Transform.map_strings Transform.rewrite (snd kx))) ps)
    acc
  = (acc ++ map (fun kx : string * value =>
                   (Transform.rename_key (fst kx), Transform.rename_keys (snd kx))) ps)%list.
Proof.
  revert acc. induction ps as [|[k x] ps IH]; intros acc Hps Hnd.
  - cbn. now rewrite app_nil_r.
  - inversion Hps as [|? ? (Hk & Hidx & Hx & Hre) Hrest]; subst. cbn [fst snd] in *.
    cbn [map fst snd] in *.
    rewrite build_defined
      by (intros E; apply map_strings_undefined in E; now apply plain_tree_defined in Hx).
    rewrite Hre, (rewrite_key k Hk).
    rewrite define_property_new;
      [| intros Hin; apply NoDup_remove_2 in Hnd; apply Hnd, in_or_app; now left
       | exact Hidx].
    rewrite IH; [now rewrite <- app_assoc | exact Hrest |].
    rewrite map_app. cbn [map fst]. now rewrite <- app_assoc.
Qed.

Lemma transformed_plain (v : value) :
  Transform.plain_tree v ->
  Transform.reparsed (Transform.map_strings Transform.rewrite v)
  = Transform.rename_keys v.
Proof.
  induction v as [| |b|n|s|l IH|ps IH|e] using value_ind'; intros H;
    try reflexivity; try (destruct H; fail).
  - destruct n as [lit| |neg]; [reflexivity | destruct H | destruct H].
  - destruct H as [Hq Hs]. cbn [Transform.map_strings Transform.reparsed Transform.rename_keys].
    now rewrite (rewrite_key s Hq), Hs.
  - apply plain_tree_elements in H.
    cbn [Transform.map_strings Transform.reparsed Transform.rename_keys].
    f_equal. rewrite map_map. apply map_ext_in. intros x Hx.
    rewrite Forall_forall in *. auto.
  - apply plain_tree_properties in H as [H Hnd].
    cbn [Transform.map_strings Transform.rename_keys]. rewrite reparsed_object.
    f_equal. rewrite build_plain; [reflexivity | | exact Hnd].
    rewrite Forall_forall in *. intros kx Hkx.
    destruct (H kx Hkx) as (H1 & H2 & H3). repeat split; auto.
Qed.

(** On such a tree [replaceKeys] renames the keys, at every depth, and
    keeps everything else as it is. *)
Lemma replaceKeys_renames_keys (v : value) :
  Transform.plain_tree v -> replaceKeys v = inr (Transform.rename_keys v).
Proof.
  intros H. rewrite replaceKeys_transformed;
    [| now apply plain_tree_defined | now apply plain_tree_well_formed].
  unfold Transform.transformed. now rewrite transformed_plain.
Qed.

Example converted_plain : Transform.plain_tree Example.converted.
Proof.
  cbn. repeat split; repeat constructor; cbn; intuition discriminate.
Qed.

(** ** The classifier *)

Lemma strict_eq_unrecognized (type : value) (lit : string) :
  (forall s, type = VStr s -> ~ In s recognized_types) ->
  In lit recognized_types ->
  strict_eq_string type lit = false.
Proof.
  intros Hun Hin. destruct type as [| |b|n|s|l|ps|e]; try reflexivity.
  cbn [strict_eq_string]. destruct (String.eqb_spec s lit) as [->|]; [|reflexivity].
  exfalso. exact (Hun lit eq_refl Hin).
Qed.

Lemma getMessage_unhandled {world : Type} (common : common_module world)
      (type record : value) (w : world) :
  (forall s, type = VStr s -> ~ In s recognized_types) ->
  Darwin.getMessage common type record w = (inr ("unhandledMessage", record), w).
Proof.
  intros Hun. unfold Darwin.getMessage.
  rewrite !(strict_eq_unrecognized type) by (assumption || (cbn; tauto)).
  reflexivity.
Qed.

Ltac run_getMessage :=
  unfold Darwin.getMessage; cbn [strict_eq_string String.eqb Ascii.eqb Bool.eqb];
  unfold Eff.bind, Eff.lift, Eff.ret.

(** C1, as amended: for each of the five literals [TRAINSTATUS,],
    [SCHEDULE,], [ASSOCIATION,], [TRAINORDER,] and [STATIONMESSAGE,] (each
    with its trailing comma) and every record that has [Pport] and
    [Pport.uR], [getMessage] returns the event of that name; its payload has
    exactly the listed fields: [ts] is [record.Pport.ts], [origin] is
    [record.Pport.uR.updateOrigin], [id] and [source] are
    [record.Pport.uR.requestID] and [requestSource] where listed, and the
    domain object is what the constructor returns for the sub-structure
    ([TS], [schedule], [association], [trainOrder], [OW]).  For every other
    header it returns [unhandledMessage] with the record as it is. *)
Theorem getMessage_recognized {world : Type} (common : common_module world)
        (record ts origin id source : value) :
  read record ["Pport"; "ts"] = inr ts ->
  read record ["Pport"; "uR"; "updateOrigin"] = inr origin ->
  read record ["Pport"; "uR"; "requestID"] = inr id ->
  read record ["Pport"; "uR"; "requestSource"] = inr source ->
  (forall sub d w w',
      read record ["Pport"; "uR"; "TS"] = inr sub ->
      TrainStatus common sub w = (inr d, w') ->
      Darwin.getMessage common (VStr "TRAINSTATUS,") record w
      = (inr ("trainStatus",
              VObj [("ts", ts); ("trainStatus", d); ("origin", origin)]), w'))
  /\ (forall sub d w w',
      read record ["Pport"; "uR"; "schedule"] = inr sub ->
      Schedule common sub w = (inr d, w') ->
      Darwin.getMessage common (VStr "SCHEDULE,") record w
      = (inr ("schedule",
              VObj [("id", id); ("ts", ts); ("schedule", d);
                    ("origin", origin); ("source", source)]), w'))
  /\ (forall sub d w w',
      read record ["Pport"; "uR"; "association"] = inr sub ->
      Association common sub w = (inr d, w') ->
      Darwin.getMessage common (VStr "ASSOCIATION,") record w
      = (inr ("association",
              VObj [("id", id); ("ts", ts); ("association", d);
                    ("origin", origin); ("source", source)]), w'))
  /\ (forall sub d w w',
      read record ["Pport"; "uR"; "trainOrder"] = inr sub ->
      TrainOrder common sub w = (inr d, w') ->
      Darwin.getMessage common (VStr "TRAINORDER,") record w
      = (inr ("trainOrder",
              VObj [("id", id); ("ts", ts); ("trainOrder", d);
                    ("origin", origin); ("source", source)]), w'))
  /\ (forall sub d w w',
      read record ["Pport"; "uR"; "OW"] = inr sub ->
      StationMessage common sub w = (inr d, w') ->
      Darwin.getMessage common (VStr "STATIONMESSAGE,") record w
      = (inr ("stationMessage",
              VObj [("ts", ts); ("stationMessage", d); ("origin", origin)]), w'))
  /\ (forall type w,
      (forall s, type = VStr s -> ~ In s recognized_types) ->
      Darwin.getMessage common type record w
      = (inr ("unhandledMessage", record), w)).
Proof.
  intros Hts Horigin Hid Hsource.
  repeat split; try (intros; now apply getMessage_unhandled);
    intros sub d w w' Hsub Hctor; run_getMessage;
    rewrite ?Hts, ?Hid, Hsub, Hctor, ?Horigin, ?Hsource; reflexivity.
Qed.

(** The schedule message of the examples, classified. *)
Lemma getMessage_recognized_witness :
  Darwin.getMessage Example.common (VStr "SCHEDULE,") Example.record 0
  = (inr ("schedule",
          VObj [("id", VStr "AM02096042");
                ("ts", VStr "2017-06-01T10:00:00");
                ("schedule", Example.schedule);
                ("origin", VStr "CIS");
                ("source", VStr "at21")]), 0).
Proof.
  refine (proj1 (proj2 (getMessage_recognized Example.common Example.record
                          (VStr "2017-06-01T10:00:00") (VStr "CIS")
                          (VStr "AM02096042") (VStr "at21")
                          eq_refl eq_refl eq_refl eq_refl)) _ _ 0 0 _ _);
    reflexivity.
Defined.

(** C1 as stated fails: the header [SCHEDULE], without the comma, is one of
    the five tokens the claim names, and the record has every sub-structure,
    yet the event is [unhandledMessage]. *)
Lemma getMessage_token_without_comma :
  Darwin.getMessage Example.common (VStr "SCHEDULE") Example.record 0
  = (inr ("unhandledMessage", Example.record), 0).
Proof. reflexivity. Qed.

(** C10: for every header that is not one of the five literals with their
    comma, and every record whatsoever, [getMessage] returns
    [unhandledMessage] with the record as it is and does not throw. *)
Theorem getMessage_unrecognized {world : Type} (common : common_module world)
        (type record : value) (w : world) :
  (forall s, type = VStr s -> ~ In s recognized_types) ->
  Darwin.getMessage common type record w = (inr ("unhandledMessage", record), w)
  /\ (forall messageErr w', Darwin.getMessage common type record w <> (inl messageErr, w')).
Proof.
  intros Hun. rewrite (getMessage_unhandled common type record w Hun).
  split; [reflexivity | discriminate].
Qed.

(** A record without [Pport], under a header that is not known. *)
Lemma getMessage_unrecognized_witness :
  Darwin.getMessage Example.common (VStr "TRACKINGID,") (VObj []) 0
  = (inr ("unhandledMessage", VObj []), 0)
  /\ (forall messageErr w',
        Darwin.getMessage Example.common (VStr "TRACKINGID,") (VObj []) 0
        <> (inl messageErr, w')).
Proof.
  apply (getMessage_unrecognized Example.common (VStr "TRACKINGID,") (VObj []) 0).
  intros s Hs. injection Hs as <-. cbn. intuition discriminate.
Defined.







(** ** The transform layer *)

(** C2 (a defect of the code): [replaceKeys] rewrites the serialized text,
    where a string value that reads [ns3:Location] is printed exactly as a
    key of that name is.  On the tree with the one property [ns2:tpl] whose
    value is the string [ns3:Location], the key loses its prefix, as claimed,
    but the value comes back as [locations]: it is not preserved.  Renaming
    the keys alone would give the second tree. *)
Theorem replaceKeys_rewrites_string_values :
  replaceKeys Example.location_value = inr (VObj [("tpl", VStr "locations")])
  /\ Transform.rename_keys Example.location_value
     = VObj [("tpl", VStr "ns3:Location")].
Proof. split; reflexivity. Qed.

(** On the hand-built tree of the examples, whose string values do not read
    like keys, the keys are renamed at every depth and all else is kept. *)
Example replaceKeys_converted :
  replaceKeys Example.converted = inr Example.record
  /\ Transform.rename_keys Example.converted = Example.record.
Proof. split; reflexivity. Qed.

(** ** The handlers *)

(** [emit] on an event other than [error], and on [error] with and without
    a listener. *)
Lemma emit_event {world : Type} (event : string) (args : list value)
      (this : Darwin.darwin) (w : world) :
  String.eqb event "error" = false ->
  Darwin.emit event args (this, w) = (inr tt, (Darwin.emitted_as this event args, w)).
Proof. intros H. unfold Darwin.emit. now rewrite H. Qed.

Lemma emit_error_heard {world : Type} (args : list value)
      (this : Darwin.darwin) (w : world) :
  Darwin.listens this "error" = true ->
  Darwin.emit "error" args (this, w)
  = (inr tt, (Darwin.emitted_as this "error" args, w)).
Proof. intros H. unfold Darwin.emit. cbn [fst snd]. now rewrite H, andb_false_r. Qed.

Lemma emit_error_unheard {world : Type} (args : list value)
      (this : Darwin.darwin) (w : world) :
  Darwin.listens this "error" = false ->
  Darwin.emit "error" args (this, w) = (inl (Darwin.unhandled args), (this, w)).
Proof. intros H. unfold Darwin.emit. cbn [fst snd]. now rewrite H. Qed.

Lemma getMessage_event {world : Type} (common : common_module world)
      (type record : value) (w w' : world) (ev : string * value) :
  Darwin.getMessage common type record w = (inr ev, w') ->
  typed_event (fst ev) = true /\ error_notification (fst ev) = false.
Proof.
  intros H. unfold Darwin.getMessage in H.
  repeat match type of H with
         | context [if ?b then _ else _] => destruct b
         end;
    unfold Eff.bind, Eff.lift, Eff.ret in H;
    repeat match type of H with
           | context [match ?x with _ => _ end] => destruct x
           end;
    try discriminate H; injection H as <- _; split; reflexivity.
Qed.

Lemma getMessage_not_error {world : Type} (common : common_module world)
      (type record : value) (w w' : world) (ev : string * value) :
  Darwin.getMessage common type record w = (inr ev, w') ->
  String.eqb (fst ev) "error" = false.
Proof.
  intros H. apply getMessage_event in H as [_ H].
  unfold error_notification in H. now apply orb_false_iff in H as [H _].
Qed.

Lemma reparsed_defined (v : value) : Transform.reparsed v <> VUndefined.
Proof. destruct v as [| |b|[lit| |neg]|s|l|ps|e]; discriminate. Qed.

Lemma stringified_reparsed (v : value) :
  Darwin.stringified (Transform.reparsed v) = VStr (Transform.text (Transform.reparsed v)).
Proof.
  unfold Darwin.stringified, Transform.text.
  destruct (JSON.stringify (Transform.reparsed v)) eqn:E; [reflexivity|].
  apply stringify_none in E. now apply reparsed_defined in E.
Qed.

Lemma stringified_transformed (v : value) :
  Darwin.stringified (Transform.transformed v)
  = VStr (Transform.text (Transform.transformed v)).
Proof. apply stringified_reparsed. Qed.

(** What the [end] listener does once the XML conversion has returned. *)
Lemma on_end_converted {world : Type} (common : common_module world)
      (xml2json : xml2json_module world) (type : value) (buffer : list string)
      (xml : value) (this : Darwin.darwin) (w w1 : world) :
  toJson xml2json (String.concat EmptyString buffer) Darwin.toJsonOptions w = (inr xml, w1) ->
  xml <> VUndefined ->
  Transform.well_formed xml = true ->
  Darwin.on_end common xml2json type buffer (this, w)
  = match Darwin.getMessage common type (Transform.transformed xml) w1 with
    | (inr ev, w2) => (inr tt, (Darwin.emitted_as this (fst ev) [snd ev], w2))
    | (inl messageErr, w2) =>
        (inr tt,
         (Darwin.emitted_as this "messageErr"
            [VStr (error_stack messageErr);
             VStr (Transform.text (Transform.transformed xml))], w2))
    end.
Proof.
  intros Hxml Hdef Hwf.
  unfold Darwin.on_end, Eff.bind, Darwin.call, Eff.lift, Eff.try_catch.
  cbn [fst snd]. rewrite Hxml, (replaceKeys_transformed xml Hdef Hwf).
  rewrite stringified_transformed. cbn [fst snd].
  destruct (Darwin.getMessage common type (Transform.transformed xml) w1)
    as [[messageErr|ev] w2] eqn:Hget.
  - now apply emit_event.
  - now rewrite (emit_event _ _ _ _ (getMessage_not_error _ _ _ _ _ _ Hget)).
Qed.



(** A message whose schedule is missing, then the schedule message of the
    examples: the first is reported, the second classified. *)
Example failure_then_schedule :
  Darwin.emitted
    (fst (snd ((Darwin.on_end Example.common Example.xml2json (VStr "SCHEDULE,")
                  [Example.bare_xml] ;;;
                Darwin.on_end Example.common Example.xml2json (VStr "SCHEDULE,")
                  Example.schedule_chunks)
                 (Example.fresh, 0))))
  = [("messageErr",
      [VStr "TypeError: Cannot read property 'rid' of undefined";
       VStr (Transform.text Example.bare)]);
     ("schedule",
      [VObj [("id", VStr "AM02096042");
             ("ts", VStr "2017-06-01T10:00:00");
             ("schedule", Example.schedule);
             ("origin", VStr "CIS");
             ("source", VStr "at21")]])].
Proof. reflexivity. Qed.


Lemma stream_data {world : Type} (common : common_module world)
      (xml2json : xml2json_module world) (type : value) (message : frame)
      (chunks : list string) (rest : list stream_event) (buffer : list string) :
  Darwin.stream common xml2json type message (map Data chunks ++ rest)%list buffer
  = Darwin.stream common xml2json type message rest (buffer ++ chunks)%list.
Proof.
  revert buffer. induction chunks as [|c chunks IH]; intros buffer.
  - now rewrite app_nil_r.
  - cbn [map app Darwin.stream]. rewrite IH. unfold Darwin.on_data.
    now rewrite <- app_assoc.
Qed.

(** C4, as amended: a gunzip stream that fails before any chunk was decoded
    makes the instance emit nothing; one that fails after one chunk or more
    makes it emit exactly one [error], with the error and the headers of
    the message, when the consumer listens to [error].  No typed event is
    emitted for the message, the listener returns, and what the stream
    tells next is handled from the state it leaves. *)
Theorem stream_failure {world : Type} (common : common_module world)
        (xml2json : xml2json_module world) (type : value) (message : frame)
        (error : error) (this : Darwin.darwin) (w : world) :
  Darwin.stream common xml2json type message [Failed error] [] (this, w)
  = (inr tt, (this, w))
  /\ (Darwin.listens this "error" = true ->
      forall chunk chunks,
        Darwin.stream common xml2json type message
          (map Data (chunk :: chunks) ++ [Failed error])%list [] (this, w)
        = (inr tt,
           (Darwin.emitted_as this "error" [VError error; headers message], w))
        /\ forall rest,
             Darwin.stream common xml2json type message
               (map Data (chunk :: chunks) ++ Failed error :: rest)%list [] (this, w)
             = Darwin.stream common xml2json type message rest (chunk :: chunks)
                 (Darwin.emitted_as this "error" [VError error; headers message], w)).
Proof.
  split; [reflexivity|].
  intros Hlistens chunk chunks.
  assert (Hrest : forall rest,
             Darwin.stream common xml2json type message
               (map Data (chunk :: chunks) ++ Failed error :: rest)%list [] (this, w)
             = Darwin.stream common xml2json type message rest (chunk :: chunks)
                 (Darwin.emitted_as this "error" [VError error; headers message], w)).
  { intros rest. rewrite stream_data. cbn [app Darwin.stream].
    unfold Eff.bind at 1, Darwin.on_error.
    cbn [List.length Nat.ltb Nat.leb].
    now rewrite (emit_error_heard _ _ _ Hlistens). }
  split; [apply (Hrest []) | exact Hrest].
Qed.

(** A stream that fails after one chunk, on an instance whose consumer
    listens to [error]. *)
Lemma stream_failure_witness :
  Darwin.stream Example.common Example.xml2json (VStr "SCHEDULE,")
    Example.failing_frame
    [Data "<Pport ts='2017-06-01T10:00:00'>"; Failed Example.failure] []
    (Example.listening, 0)
  = (inr tt,
     (Darwin.emitted_as Example.listening "error"
        [VError Example.failure; headers Example.failing_frame], 0)).
Proof.
  exact (proj1 (proj2 (stream_failure Example.common Example.xml2json
                         (VStr "SCHEDULE,") Example.failing_frame Example.failure
                         Example.listening 0)
                  eq_refl "<Pport ts='2017-06-01T10:00:00'>" [])).
Defined.

(** C4 as stated fails on an instance nobody listens to, which is how the
    constructor leaves it: [emit] throws the error of the stream, no event
    is emitted, and the exception leaves the listener. *)
Lemma stream_failure_unheard :
  Darwin.listeners Darwin.constructor = []
  /\ Darwin.stream Example.common Example.xml2json (VStr "SCHEDULE,")
       Example.failing_frame
       [Data "<Pport ts='2017-06-01T10:00:00'>"; Failed Example.failure] []
       (Darwin.constructor, 0)
     = (inl Example.failure, (Darwin.constructor, 0)).
Proof. split; reflexivity. Qed.

(** C9, as amended: called with an error that is truthy, as every [Error]
    is, on an instance whose consumer listens to [error], the callback of
    the subscription emits exactly one [error] with that error and returns:
    the message is not looked at, nothing is decoded or classified, the
    collaborators are not called, and the queue is not subscribed to
    again. *)
Theorem subscription_failure {world : Type} (common : common_module world)
        (xml2json : xml2json_module world) (err : value) (message : option frame)
        (this : Darwin.darwin) (w : world) :
  to_boolean err = true ->
  Darwin.listens this "error" = true ->
  Darwin.on_message common xml2json err message (this, w)
  = (inr tt, (Darwin.emitted_as this "error" [err], w))
  /\ Darwin.subscriptions (Darwin.emitted_as this "error" [err])
     = Darwin.subscriptions this
  /\ Darwin.emitted (Darwin.emitted_as this "error" [err])
     = (Darwin.emitted this ++ [("error", [err])])%list.
Proof.
  intros Herr Hlistens. repeat split.
  unfold Darwin.on_message. rewrite Herr. now apply emit_error_heard.
Qed.

(** A failure to subscribe, with the message that is then missing. *)
Lemma subscription_failure_witness :
  Darwin.on_message Example.common Example.xml2json (VError Example.failure) None
    (Example.listening, 0)
  = (inr tt,
     (Darwin.emitted_as Example.listening "error" [VError Example.failure], 0)).
Proof.
  exact (proj1 (subscription_failure Example.common Example.xml2json
                  (VError Example.failure) None Example.listening 0
                  eq_refl eq_refl)).
Defined.

(** C9 as stated fails twice.  On an instance nobody listens to, [emit]
    throws the error: no event is emitted and the exception leaves the
    callback.  And an error that is not null but falsy, here the number
    zero, is not taken for an error: the message is decoded and
    classified, and the event emitted is a [schedule]. *)
Lemma subscription_failure_unheard_or_falsy :
  Darwin.on_message Example.common Example.xml2json (VError Example.failure) None
    (Darwin.constructor, 0)
  = (inl Example.failure, (Darwin.constructor, 0))
  /\ Darwin.on_message Example.common Example.xml2json (VNum (Finite "0"))
       (Some Example.schedule_frame) (Example.listening, 0)
     = (inr tt,
        (Darwin.emitted_as Example.listening "schedule"
           [VObj [("id", VStr "AM02096042");
                  ("ts", VStr "2017-06-01T10:00:00");
                  ("schedule", Example.schedule);
                  ("origin", VStr "CIS");
                  ("source", VStr "at21")]], 0)).
Proof. split; reflexivity. Qed.






(** ** The options given to the collaborators *)

Lemma iter_double (n : nat) (d : N) :
  Nat.iter n (N.mul 2) d = (d * 2 ^ N.of_nat n)%N.
Proof.
  induction n as [|n IH].
  - cbn. now rewrite N.mul_1_r.
  - rewrite Nat.iter_succ, IH, Nat2N.inj_succ, N.pow_succ_r'.
    rewrite !N.mul_assoc. now rewrite (N.mul_comm 2 d).
Qed.

(** C6: [connect] installs a policy with initial delay 10, maximum delay
    30000, exponential backoff, at most 30 attempts and no randomization;
    under the backoff of the failover factory the delay after [n] failures
    in a row is the initial delay doubled [n] times and capped at the
    maximum, and no attempt is made once the attempts are used up. *)
Theorem reconnect_policy (NATIONAL_RAIL_FEED_URL : option string) (queue : string)
        (this : Darwin.darwin) (failures : nat) :
  option_map reconnect (Darwin._channel (Darwin.connect NATIONAL_RAIL_FEED_URL queue this))
  = Some Darwin.reconnectOptions
  /\ initialReconnectDelay Darwin.reconnectOptions = 10%N
  /\ maxReconnectDelay Darwin.reconnectOptions = 30000%N
  /\ useExponentialBackOff Darwin.reconnectOptions = true
  /\ maxReconnects Darwin.reconnectOptions = 30%N
  /\ randomize Darwin.reconnectOptions = false
  /\ Darwin.reconnect_delay Darwin.reconnectOptions failures
     = N.min (10 * 2 ^ N.of_nat failures) 30000
  /\ (Darwin.reconnect_delay Darwin.reconnectOptions failures <= 30000)%N
  /\ (Darwin.attempt_allowed Darwin.reconnectOptions failures = true <-> failures < 30).
Proof.
  repeat split; try reflexivity.
  - unfold Darwin.reconnect_delay, Darwin.backoff. cbn.
    now rewrite iter_double.
  - unfold Darwin.reconnect_delay. cbn. apply N.le_min_r.
  - unfold Darwin.attempt_allowed. cbn. intros H. apply N.ltb_lt in H. lia.
  - unfold Darwin.attempt_allowed. cbn. intros H. apply N.ltb_lt. lia.
Qed.

Lemma field_at_fields (fields : list (string * Darwin.document)) (k : string)
      (rest : list string) :
  Darwin.field_at (Darwin.Fields fields) (k :: rest)
  = match fields with
    | [] => None
    | (k', d') :: fields' =>
        if String.eqb k k' then Darwin.field_at d' rest
        else Darwin.field_at (Darwin.Fields fields') (k :: rest)
    end.
Proof. destruct fields as [|[k' d'] fields']; reflexivity. Qed.

(** The text of a field, read along a path from the converted document,
    is what the coercion of the last name of the path makes of it. *)
Lemma convert_read (default : string -> value) (o : toJson_options)
      (path : list string) :
  forall (name : string) (d : Darwin.document) (text : string),
    Darwin.field_at d path = Some (Darwin.Text text) ->
    read (Darwin.convert default o name d) path
    = inr (Darwin.coerce_field default o (last path name) text).
Proof.
  induction path as [|k rest IH]; intros name d text H.
  - cbn in H. injection H as ->. reflexivity.
  - destruct d as [t|fields]; [discriminate H|].
    assert (Hlast : last (k :: rest) name = last rest k)
      by (clear; revert k; induction rest as [|k' rest IH]; intros k;
          [reflexivity | cbn [last] in *; destruct rest; [reflexivity | apply IH]]).
    rewrite Hlast. clear Hlast.
    induction fields as [|[k' d'] fields IHf]; [discriminate H|].
    rewrite field_at_fields in H.
    cbn [read Darwin.convert map get lookup fst snd] in *.
    destruct (String.eqb k k') eqn:Hk.
    + apply String.eqb_eq in Hk. subst k'. now apply IH.
    + apply IHf. exact H.
Qed.

(** C7: the [end] listener gives the decoded text to the conversion with
    the options of [connect], and hands what it returns to the transform
    and the classification.  Under these options the conversion turns the
    text of every field named [trainId], at any depth, into that very
    string, whatever the coercion of other fields would make of it: no
    character of it is lost, a leading zero no more than any other. *)
Theorem trainId_kept_as_text {world : Type} (common : common_module world)
        (parse : string -> option (list (string * Darwin.document)))
        (default : string -> value) (type : value) (buffer : list string)
        (fields : list (string * Darwin.document))
        (this : Darwin.darwin) (w : world) :
  parse (String.concat EmptyString buffer) = Some fields ->
  Transform.well_formed
    (Darwin.convert default Darwin.toJsonOptions EmptyString (Darwin.Fields fields))
  = true ->
  Darwin.on_end common (Darwin.primitive parse default) type buffer (this, w)
  = match Darwin.getMessage common type
            (Transform.transformed
               (Darwin.convert default Darwin.toJsonOptions EmptyString
                  (Darwin.Fields fields))) w with
    | (inr ev, w2) => (inr tt, (Darwin.emitted_as this (fst ev) [snd ev], w2))
    | (inl messageErr, w2) =>
        (inr tt,
         (Darwin.emitted_as this "messageErr"
            [VStr (error_stack messageErr);
             VStr (Transform.text
                     (Transform.transformed
                        (Darwin.convert default Darwin.toJsonOptions EmptyString
                           (Darwin.Fields fields))))], w2))
    end
  /\ (forall path text,
        Darwin.field_at (Darwin.Fields fields) path = Some (Darwin.Text text) ->
        last path EmptyString = "trainId" ->
        read (Darwin.convert default Darwin.toJsonOptions EmptyString
                (Darwin.Fields fields)) path
        = inr (VStr text))
  /\ (forall path text,
        Darwin.field_at (Darwin.Fields fields) path = Some (Darwin.Text text) ->
        last path EmptyString <> "trainId" ->
        read (Darwin.convert default Darwin.toJsonOptions EmptyString
                (Darwin.Fields fields)) path
        = inr (default text)).
Proof.
  intros Hparse Hwf. repeat split.
  - apply on_end_converted; [| discriminate | exact Hwf].
    cbn [Darwin.primitive toJson]. now rewrite Hparse.
  - intros path text Hfield Hlast.
    rewrite (convert_read default Darwin.toJsonOptions path _ _ text Hfield), Hlast.
    reflexivity.
  - intros path text Hfield Hlast.
    rewrite (convert_read default Darwin.toJsonOptions path _ _ text Hfield).
    unfold Darwin.coerce_field. cbn [Darwin.toJsonOptions coerce Darwin.hook_of].
    apply String.eqb_neq in Hlast. now rewrite Hlast.
Qed.

(** A schedule whose train identifier reads like a number, under a
    coercion that makes numbers of such texts: the identifier arrives as
    its text, the [rid] beside it as a number without its leading zero. *)
Lemma trainId_kept_as_text_witness :
  Darwin.on_end Example.common
    (Darwin.primitive Example.reading Example.number_of_digits)
    (VStr "SCHEDULE,") [Example.journey_xml] (Example.fresh, 0)
  = (inr tt,
     (Darwin.emitted_as Example.fresh "schedule"
        [VObj [("id", VUndefined);
               ("ts", VStr "2017-06-01T10:00:00");
               ("schedule",
                VObj [("class", VStr "Schedule");
                      ("data",
                       VObj [("rid", VNum (Finite "201706017170001"));
                             ("trainId", VStr "0042")])]);
               ("origin", VStr "CIS");
               ("source", VUndefined)]], 0))
  /\ read (Darwin.convert Example.number_of_digits Darwin.toJsonOptions EmptyString
             (Darwin.Fields Example.journey))
          ["Pport"; "uR"; "schedule"; "trainId"]
     = inr (VStr "0042")
  /\ Example.number_of_digits "0042" = VNum (Finite "42").
Proof.
  pose proof (trainId_kept_as_text Example.common Example.reading
                Example.number_of_digits (VStr "SCHEDULE,") [Example.journey_xml]
                Example.journey Example.fresh 0 eq_refl eq_refl) as (Hend & Hid & _).
  split; [exact Hend | split; [| reflexivity]].
  exact (Hid ["Pport"; "uR"; "schedule"; "trainId"] "0042" eq_refl eq_refl).
Defined.

(** * Further properties *)

(** ** [replaceKeys] *)

(** X1: [replaceKeys] throws on [undefined] alone, a [TypeError]; on every
    other value it returns, and what it returns is the tree in which every
    string, key or value, has gone through the two replacements, as
    [JSON.parse] reads it back. *)
Theorem replaceKeys_throws_on_undefined_only (v : value) :
  Transform.well_formed v = true ->
  match v with
  | VUndefined =>
      replaceKeys v = inl (TypeError "Cannot read property 'replace' of undefined")
  | _ => replaceKeys v = inr (Transform.transformed v)
  end.
Proof.
  intros Hwf. destruct v as [| |b|n|s|l|ps|e]; try reflexivity;
    apply replaceKeys_transformed; (discriminate || exact Hwf).
Qed.

Lemma replaceKeys_throws_on_undefined_only_witness :
  replaceKeys Example.location_value
  = inr (Transform.transformed Example.location_value).
Proof.
  exact (replaceKeys_throws_on_undefined_only Example.location_value eq_refl).
Defined.

(** X2: on a tree of JSON whose strings hold no quote, whose string values
    do not read like a key to rename, and whose keys stay distinct and are
    no array indices once renamed, [replaceKeys] renames the keys at every
    depth ([ns3:Location] to [locations], a one-digit namespace prefix
    dropped) and returns everything else as it was: values, nesting and
    order. *)
Theorem replaceKeys_renames_keys_only (v : value) :
  Transform.plain_tree v -> replaceKeys v = inr (Transform.rename_keys v).
Proof.
  intros H. rewrite replaceKeys_transformed;
    [| now apply plain_tree_defined | now apply plain_tree_well_formed].
  unfold Transform.transformed. now rewrite transformed_plain.
Qed.

Lemma replaceKeys_renames_keys_only_witness :
  replaceKeys Example.converted = inr (Transform.rename_keys Example.converted).
Proof.
  apply (replaceKeys_renames_keys_only Example.converted).
  cbn. repeat split; repeat constructor; cbn; intuition discriminate.
Defined.

Lemma digit_no_quote (d : ascii) : is_digit d = true -> Ascii.eqb d dq = false.
Proof. each_ascii d; intros H; try reflexivity; discriminate H. Qed.

Lemma digit_not_colon (d : ascii) : is_digit d = true -> Ascii.eqb d ":" = false.
Proof. each_ascii d; intros H; try reflexivity; discriminate H. Qed.

Lemma prefixed_no_quote (d : ascii) (k : string) :
  is_digit d = true -> Transform.no_quote k = true ->
  Transform.no_quote (prefixed d k) = true.
Proof.
  intros Hd Hk. unfold prefixed. cbn [Transform.no_quote].
  rewrite (digit_no_quote d Hd), Hk. reflexivity.
Qed.

Lemma rename_key_prefixed (d : ascii) (k : string) :
  is_digit d = true -> prefixed d k <> "ns3:Location" ->
  Transform.rename_key (prefixed d k) = k.
Proof.
  intros Hd Hne. unfold Transform.rename_key.
  destruct (String.eqb_spec (prefixed d k) "ns3:Location") as [E|_]; [contradiction|].
  unfold prefixed. now rewrite Hd.
Qed.

Lemma rewrite_prefixed (d : ascii) (k : string) :
  is_digit d = true -> Transform.no_quote k = true ->
  prefixed d k <> "ns3:Location" ->
  Transform.rewrite (prefixed d k) = k.
Proof.
  intros Hd Hk Hne.
  rewrite rewrite_key by now apply prefixed_no_quote.
  now apply rename_key_prefixed.
Qed.

Lemma define_property_first (k : string) (v : value) :
  JSON.define_property [] k v = [(k, v)].
Proof.
  unfold JSON.define_property. cbn [JSON.has_key].
  destruct (JSON.array_index k); reflexivity.
Qed.

Lemma define_property_again (k : string) (v v' : value) :
  JSON.define_property [(k, v)] k v' = [(k, v')].
Proof.
  unfold JSON.define_property. cbn [JSON.has_key JSON.overwrite].
  now rewrite String.eqb_refl.
Qed.

Lemma transformed_property (k : string) (x : value) :
  Transform.plain_tree x ->
  Transform.transformed (VObj [(k, x)])
  = VObj [(Transform.rewrite k, Transform.rename_keys x)].
Proof.
  intros Hx. unfold Transform.transformed.
  cbn [Transform.map_strings map fst snd]. rewrite reparsed_object.
  rewrite build_defined
    by (intros E; apply map_strings_undefined in E; now apply plain_tree_defined in Hx).
  cbn [Transform.build]. now rewrite define_property_first, transformed_plain.
Qed.

(** X3: exactly one prefix of one digit is dropped from a key.  A key that
    starts with [ns], one digit and a colon loses these four characters and
    keeps the rest as it is, even when the rest starts with a prefix of its
    own; a key whose prefix has two digits is kept whole. *)
Theorem replaceKeys_one_prefix_of_one_digit (d d' : ascii) (k : string) (x : value) :
  is_digit d = true -> is_digit d' = true ->
  Transform.no_quote k = true ->
  prefixed d k <> "ns3:Location" ->
  Transform.plain_tree x ->
  replaceKeys (VObj [(prefixed d k, x)]) = inr (VObj [(k, Transform.rename_keys x)])
  /\ replaceKeys (VObj [(String "n" (String "s" (String d (String d' (String ":" k)))), x)])
     = inr (VObj [(String "n" (String "s" (String d (String d' (String ":" k)))),
                   Transform.rename_keys x)]).
Proof.
  intros Hd Hd' Hk Hne Hx.
  pose proof (plain_tree_well_formed x Hx) as Hwf.
  split.
  - rewrite replaceKeys_transformed;
      [| discriminate | cbn [Transform.well_formed forallb snd]; now rewrite Hwf].
    rewrite transformed_property by exact Hx.
    now rewrite rewrite_prefixed.
  - rewrite replaceKeys_transformed;
      [| discriminate | cbn [Transform.well_formed forallb snd]; now rewrite Hwf].
    rewrite transformed_property by exact Hx.
    rewrite rewrite_key.
    + unfold Transform.rename_key.
      destruct (String.eqb_spec
                  (String "n" (String "s" (String d (String d' (String ":" k)))))
                  "ns3:Location") as [E|_].
      * discriminate E.
      * now rewrite (digit_not_colon d' Hd'), andb_false_r.
    + cbn [Transform.no_quote].
      now rewrite (digit_no_quote d Hd), (digit_no_quote d' Hd'), Hk.
Qed.

Lemma replaceKeys_one_prefix_of_one_digit_witness :
  replaceKeys (VObj [("ns1:ns2:tpl", VStr "EUSTON")])
  = inr (VObj [("ns2:tpl", VStr "EUSTON")])
  /\ replaceKeys (VObj [("ns10:ns2:tpl", VStr "EUSTON")])
     = inr (VObj [("ns10:ns2:tpl", VStr "EUSTON")]).
Proof.
  apply (replaceKeys_one_prefix_of_one_digit "1" "0" "ns2:tpl" (VStr "EUSTON"));
    try reflexivity; [discriminate | split; reflexivity].
Defined.

Lemma build_app (l1 l2 acc : list (string * value)) :
  Transform.build (l1 ++ l2)%list acc = Transform.build l2 (Transform.build l1 acc).
Proof.
  revert acc. induction l1 as [|[k x] l1 IH]; intros acc; [reflexivity|].
  cbn [app Transform.build]. destruct x; apply IH.
Qed.

Lemma define_property_at (l1 l2 : list (string * value)) (k : string) (v v' : value) :
  ~ In k (map fst l1) ->
  JSON.define_property (l1 ++ (k, v) :: l2)%list k v' = (l1 ++ (k, v') :: l2)%list.
Proof.
  intros Hnew. unfold JSON.define_property.
  assert (Hhas : JSON.has_key k (l1 ++ (k, v) :: l2)%list = true).
  { clear Hnew. induction l1 as [|[k1 v1] l1 IH]; cbn [app JSON.has_key].
    - now rewrite String.eqb_refl.
    - now rewrite IH, orb_true_r. }
  rewrite Hhas. clear Hhas.
  induction l1 as [|[k1 v1] l1 IH]; cbn [app JSON.overwrite].
  - now rewrite String.eqb_refl.
  - cbn [map fst In] in Hnew.
    destruct (String.eqb_spec k k1) as [->|_]; [tauto|].
    rewrite IH; [reflexivity | tauto].
Qed.

Lemma renamed_keys (ps : list (string * value)) :
  map fst (renamed ps)
  = map (fun kx : string * value => Transform.rename_key (fst kx)) ps.
Proof. unfold renamed. rewrite map_map. reflexivity. Qed.

Lemma build_renamed (ps acc : list (string * value)) :
  Forall (fun kx : string * value =>
            Transform.no_quote (fst kx) = true
            /\ JSON.array_index (Transform.rename_key (fst kx)) = None
            /\ Transform.plain_tree (snd kx)) ps ->
  NoDup (map fst acc ++ map fst (renamed ps)) ->
  Transform.build
    (map (fun kx : string * value =>
            (Transform.rewrite (fst kx), Transform.map_strings Transform.rewrite (snd kx)))
       ps) acc
  = (acc ++ renamed ps)%list.
Proof.
  intros Hps Hnd. rewrite renamed_keys in Hnd. apply build_plain; [|exact Hnd].
  apply (Forall_impl _ (P := fun kx : string * value =>
            Transform.no_quote (fst kx) = true
            /\ JSON.array_index (Transform.rename_key (fst kx)) = None
            /\ Transform.plain_tree (snd kx))); [|exact Hps].
  intros kx (H1 & H2 & H3). repeat split; auto using transformed_plain.
Qed.

(** X4: two keys of one object that are renamed to the same key leave one
    property: it stands where the first stood, among the properties that
    were before it and after it, and holds the value of the second; the
    value of the first is lost, and the place of the second is empty. *)
Theorem replaceKeys_merges_colliding_keys (d : ascii) (k : string) (x y : value)
        (before between after : list (string * value)) :
  is_digit d = true ->
  Transform.no_quote k = true ->
  Transform.rename_key k = k ->
  prefixed d k <> "ns3:Location" ->
  Transform.plain_tree (VObj (before ++ (prefixed d k, x) :: between ++ after)) ->
  Transform.plain_tree y ->
  replaceKeys (VObj (before ++ (prefixed d k, x) :: between ++ (k, y) :: after))
  = inr (VObj (renamed before ++ (k, Transform.rename_keys y)
               :: renamed between ++ renamed after)).
Proof.
  intros Hd Hk Hkk Hne Hobj Hy.
  apply plain_tree_properties in Hobj as [Hall Hnd].
  apply Forall_app in Hall as [Hbefore Hall].
  inversion Hall as [|? ? (_ & Hidx & Hx) Hall']; subst. cbn [fst snd] in Hidx, Hx.
  apply Forall_app in Hall' as [Hbetween Hafter].
  rewrite map_app in Hnd. cbn [map fst] in Hnd.
  rewrite (rename_key_prefixed d k Hd Hne), map_app in Hnd.
  rewrite replaceKeys_transformed; [| discriminate |].
  2:{ cbn [Transform.well_formed]. apply forallb_forall. intros kx Hin.
      rewrite Forall_forall in Hbefore, Hbetween, Hafter.
      apply in_app_or in Hin as [Hin|[<-|Hin]];
        [now apply plain_tree_well_formed, Hbefore
        | now apply plain_tree_well_formed |].
      apply in_app_or in Hin as [Hin|[<-|Hin]];
        [now apply plain_tree_well_formed, Hbetween
        | now apply plain_tree_well_formed
        | now apply plain_tree_well_formed, Hafter]. }
  unfold Transform.transformed.
  cbn [Transform.map_strings]. rewrite reparsed_object. do 2 f_equal.
  replace (before ++ (prefixed d k, x) :: between ++ (k, y) :: after)%list
    with ((before ++ (prefixed d k, x) :: between) ++ (k, y) :: after)%list
    by (rewrite <- app_assoc; reflexivity).
  rewrite map_app, build_app. cbn [map fst snd].
  rewrite build_renamed.
  - cbn [app]. rewrite build_defined
      by (intros E; apply map_strings_undefined in E; now apply plain_tree_defined in Hy).
    rewrite (rewrite_key k Hk), Hkk, (transformed_plain y Hy).
    unfold renamed at 1. rewrite map_app. cbn [map fst snd].
    rewrite (rename_key_prefixed d k Hd Hne).
    fold (renamed before) (renamed between).
    rewrite define_property_at.
    + rewrite build_renamed; [now rewrite <- app_assoc | exact Hafter |].
      rewrite map_app. cbn [map fst]. rewrite !renamed_keys, <- app_assoc.
      exact Hnd.
    + rewrite renamed_keys. apply NoDup_remove_2 in Hnd.
      intros Hin. apply Hnd, in_or_app. now left.
  - apply Forall_app. split; [exact Hbefore|]. constructor; [|exact Hbetween].
    cbn [fst snd]. repeat split; [now apply prefixed_no_quote | exact Hidx | exact Hx].
  - cbn [map app]. rewrite renamed_keys, map_app. cbn [map fst].
    rewrite (rename_key_prefixed d k Hd Hne).
    apply (NoDup_app_remove_r _ (map (fun kx : string * value =>
                                        Transform.rename_key (fst kx)) after)).
    rewrite <- app_assoc. exact Hnd.
Qed.

(** Three properties, the first and the last of which are renamed to the
    same key: the one that is left stands first. *)
Lemma replaceKeys_merges_colliding_keys_witness :
  replaceKeys (VObj [("pta", VStr "10:00"); ("ns2:tpl", VStr "EUSTON");
                     ("act", VStr "TB"); ("tpl", VStr "WATFDJ"); ("plat", VStr "4")])
  = inr (VObj [("pta", VStr "10:00"); ("tpl", VStr "WATFDJ"); ("act", VStr "TB");
               ("plat", VStr "4")]).
Proof.
  apply (replaceKeys_merges_colliding_keys "2" "tpl" (VStr "EUSTON") (VStr "WATFDJ")
           [("pta", VStr "10:00")] [("act", VStr "TB")] [("plat", VStr "4")]);
    try reflexivity; [discriminate | | split; reflexivity].
  cbn. repeat split; repeat constructor; cbn; intuition discriminate.
Defined.

(** ** [getMessage] *)

Lemma get_nullish (v : value) (k : string) :
  nullish v = true ->
  exists e, get v k = inl e /\ error_name e = "TypeError".
Proof.
  destruct v; try discriminate; intros _; eexists; split; reflexivity.
Qed.

Lemma get_defined (v : value) (k : string) :
  nullish v = false -> exists x, get v k = inr x.
Proof.
  destruct v as [| |b|n|s|l|ps|e]; try discriminate; intros _; cbn [get];
    repeat match goal with
           | |- context [match ?x with _ => _ end] => destruct x
           | |- context [if ?b then _ else _] => destruct b
           end; eexists; reflexivity.
Qed.

(** A record that lacks the update: reading below [Pport.uR] throws, and
    reading below [Pport] throws or returns. *)
Lemma lacks_update_reads (record : value) (k : string) :
  lacks_update record = true ->
  (exists e, read record ["Pport"; "uR"; k] = inl e /\ error_name e = "TypeError")
  /\ ((exists e, read record ["Pport"; k] = inl e /\ error_name e = "TypeError")
      \/ exists x, read record ["Pport"; k] = inr x).
Proof.
  unfold lacks_update. cbn [read].
  destruct (nullish record) eqn:Hr.
  - intros _. destruct (get_nullish record "Pport" Hr) as (e & -> & He).
    split; [|left]; exists e; split; auto.
  - destruct (get_defined record "Pport" Hr) as [pport ->]. cbn [orb].
    destruct (nullish pport) eqn:Hp.
    + intros _. destruct (get_nullish pport "uR" Hp) as (e & -> & He).
      destruct (get_nullish pport k Hp) as (e' & -> & He').
      split; [|left]; eexists; split; eauto.
    + destruct (get_defined pport "uR" Hp) as [uR ->].
      destruct (get_defined pport k Hp) as [x ->]. cbn [orb].
      intros Hu. destruct (get_nullish uR k Hu) as (e & -> & He).
      split; [|right]; eexists; eauto.
Qed.

(** X5: under each of the five recognized headers, a record that is [null]
    or [undefined], or has no [Pport], or no [Pport.uR], makes [getMessage]
    throw a [TypeError] before any constructor is called: the world is as it
    was. *)
Theorem getMessage_throws_without_update {world : Type} (common : common_module world)
        (type : string) (record : value) (w : world) :
  In type recognized_types ->
  lacks_update record = true ->
  exists messageErr,
    Darwin.getMessage common (VStr type) record w = (inl messageErr, w)
    /\ error_name messageErr = "TypeError".
Proof.
  intros Hin Hlack.
  pose proof (fun k => proj1 (lacks_update_reads record k Hlack)) as Hu.
  pose proof (fun k => proj2 (lacks_update_reads record k Hlack)) as Hp.
  destruct (Hu "requestID") as (e1 & E1 & T1).
  destruct (Hu "TS") as (e2 & E2 & T2).
  destruct (Hu "OW") as (e3 & E3 & T3).
  cbn [In recognized_types] in Hin.
  destruct Hin as [<-|[<-|[<-|[<-|[<-|[]]]]]]; run_getMessage;
    rewrite ?E1; try (exists e1; split; [reflexivity | exact T1]);
    destruct (Hp "ts") as [(e & -> & T)|(x & ->)];
    try (exists e; split; [reflexivity | exact T]);
    rewrite ?E2, ?E3;
    first [exists e2; split; [reflexivity | exact T2]
          | exists e3; split; [reflexivity | exact T3]].
Qed.

Lemma getMessage_throws_without_update_witness :
  exists messageErr,
    Darwin.getMessage Example.common (VStr "TRAINSTATUS,")
      (VObj [("Pport", VObj [("ts", VStr "2017-06-01T10:00:00")])]) 0
    = (inl messageErr, 0)
    /\ error_name messageErr = "TypeError".
Proof.
  apply (getMessage_throws_without_update Example.common "TRAINSTATUS,"
           (VObj [("Pport", VObj [("ts", VStr "2017-06-01T10:00:00")])]) 0);
    [left; reflexivity | reflexivity].
Defined.

(** X6: what a constructor throws, [getMessage] throws: the same error, in
    the world the constructor left; nothing is read from the record after
    the failure. *)
Theorem getMessage_rethrows {world : Type} (common : common_module world)
        (record ts id : value) :
  read record ["Pport"; "ts"] = inr ts ->
  read record ["Pport"; "uR"; "requestID"] = inr id ->
  (forall sub messageErr w w',
      read record ["Pport"; "uR"; "TS"] = inr sub ->
      TrainStatus common sub w = (inl messageErr, w') ->
      Darwin.getMessage common (VStr "TRAINSTATUS,") record w = (inl messageErr, w'))
  /\ (forall sub messageErr w w',
      read record ["Pport"; "uR"; "schedule"] = inr sub ->
      Schedule common sub w = (inl messageErr, w') ->
      Darwin.getMessage common (VStr "SCHEDULE,") record w = (inl messageErr, w'))
  /\ (forall sub messageErr w w',
      read record ["Pport"; "uR"; "association"] = inr sub ->
      Association common sub w = (inl messageErr, w') ->
      Darwin.getMessage common (VStr "ASSOCIATION,") record w = (inl messageErr, w'))
  /\ (forall sub messageErr w w',
      read record ["Pport"; "uR"; "trainOrder"] = inr sub ->
      TrainOrder common sub w = (inl messageErr, w') ->
      Darwin.getMessage common (VStr "TRAINORDER,") record w = (inl messageErr, w'))
  /\ (forall sub messageErr w w',
      read record ["Pport"; "uR"; "OW"] = inr sub ->
      StationMessage common sub w = (inl messageErr, w') ->
      Darwin.getMessage common (VStr "STATIONMESSAGE,") record w = (inl messageErr, w')).
Proof.
  intros Hts Hid.
  repeat split; intros sub messageErr w w' Hsub Hctor; run_getMessage;
    rewrite ?Hid, ?Hts, Hsub, Hctor; reflexivity.
Qed.

Lemma getMessage_rethrows_witness :
  Darwin.getMessage Example.common (VStr "SCHEDULE,") Example.bare 0
  = (inl (TypeError "Cannot read property 'rid' of undefined"), 0).
Proof.
  refine (proj1 (proj2 (getMessage_rethrows Example.common Example.bare
                          (VStr "2017-06-01T10:00:00") VUndefined eq_refl eq_refl))
            VUndefined _ 0 0 eq_refl eq_refl).
Defined.

(** X7: the header alone decides the name of the event: whenever
    [getMessage] returns, the event is the one of the header's branch, so
    never [error] or [messageErr], whatever the record holds. *)
Theorem getMessage_event_of_header {world : Type} (common : common_module world)
        (type record : value) (w w' : world) (ev : string * value) :
  Darwin.getMessage common type record w = (inr ev, w') ->
  fst ev = event_of type /\ error_notification (fst ev) = false.
Proof.
  intros H. unfold Darwin.getMessage in H. unfold event_of.
  repeat match type of H with
         | context [if ?b then _ else _] => destruct b
         end;
    unfold Eff.bind, Eff.lift, Eff.ret in H;
    repeat match type of H with
           | context [match ?x with _ => _ end] => destruct x
           end;
    try discriminate H; injection H as <- _; split; reflexivity.
Qed.

Lemma getMessage_event_of_header_witness :
  fst ("schedule", VObj [("id", VStr "AM02096042");
                         ("ts", VStr "2017-06-01T10:00:00");
                         ("schedule", Example.schedule);
                         ("origin", VStr "CIS");
                         ("source", VStr "at21")])
  = event_of (VStr "SCHEDULE,")
  /\ error_notification "schedule" = false.
Proof.
  exact (getMessage_event_of_header Example.common (VStr "SCHEDULE,") Example.record
           0 0 _ eq_refl).
Defined.

(** ** What [replaceKeys] returns *)

Lemma distinct_NoDup (l : list string) : distinct l = true <-> NoDup l.
Proof.
  induction l as [|k l IH]; cbn [distinct]; [split; [constructor | reflexivity]|].
  rewrite andb_true_iff, negb_true_iff, IH. split.
  - intros [Hk Hl]. constructor; [|exact Hl].
    intros Hin. enough (existsb (String.eqb k) l = true) by congruence.
    apply existsb_exists. exists k. split; [exact Hin | apply String.eqb_refl].
  - intros H. inversion H as [|? ? Hk Hl]; subst. split; [|exact Hl].
    destruct (existsb (String.eqb k) l) eqn:E; [|reflexivity].
    apply existsb_exists in E as (k' & Hin & Hk').
    apply String.eqb_eq in Hk'. subst k'. contradiction.
Qed.

Lemma has_key_spec (k : string) (acc : list (string * value)) :
  JSON.has_key k acc = true <-> In k (map fst acc).
Proof.
  induction acc as [|[k' v'] acc IH]; cbn [JSON.has_key map fst In].
  - split; [discriminate | tauto].
  - rewrite orb_true_iff, IH, String.eqb_eq. split; intros [H|H]; auto.
Qed.

Lemma overwrite_keys (k : string) (v : value) (acc : list (string * value)) :
  map fst (JSON.overwrite k v acc) = map fst acc.
Proof.
  induction acc as [|[k' v'] acc IH]; [reflexivity|].
  cbn [JSON.overwrite]. destruct (String.eqb k k'); cbn [map fst]; congruence.
Qed.

Lemma overwrite_values (k : string) (v : value) (acc : list (string * value)) :
  json_tree v = true ->
  Forall (fun kx : string * value => json_tree (snd kx) = true) acc ->
  Forall (fun kx : string * value => json_tree (snd kx) = true) (JSON.overwrite k v acc).
Proof.
  intros Hv. induction 1 as [|[k' v'] acc Hx Hacc IH]; [constructor|].
  cbn [JSON.overwrite]. destruct (String.eqb k k'); constructor; auto.
Qed.

Lemma insert_index_spec (i : N) (k : string) (v : value) (acc : list (string * value)) :
  exists before after,
    acc = (before ++ after)%list
    /\ JSON.insert_index i k v acc = (before ++ (k, v) :: after)%list.
Proof.
  induction acc as [|[k' v'] acc (before & after & E1 & E2)].
  - exists [], []. split; reflexivity.
  - cbn [JSON.insert_index].
    destruct (JSON.array_index k') as [j|];
      [destruct (j <? i)%N|];
      try (exists [], ((k', v') :: acc); split; reflexivity).
    exists ((k', v') :: before), after. cbn [app]. split; congruence.
Qed.

Lemma define_property_gathered (acc : list (string * value)) (k : string) (v : value) :
  gathered acc -> json_tree v = true -> gathered (JSON.define_property acc k v).
Proof.
  intros [Hvals Hkeys] Hv. unfold JSON.define_property.
  destruct (JSON.has_key k acc) eqn:Hk.
  - split; [now apply overwrite_values | now rewrite overwrite_keys].
  - assert (Hnew : ~ In k (map fst acc))
      by (intros Hin; apply has_key_spec in Hin; congruence).
    assert (Hins : forall before after, acc = (before ++ after)%list ->
                     gathered (before ++ (k, v) :: after)).
    { intros before after ->. split.
      - apply Forall_app in Hvals as [H1 H2]. apply Forall_app. split; auto.
      - rewrite map_app in *. cbn [map fst].
        apply (proj2 (NoDup_Add (Add_app k (map fst before) (map fst after)))).
        split; assumption. }
    destruct (JSON.array_index k) as [i|].
    + destruct (insert_index_spec i k v acc) as (before & after & E1 & ->).
      now apply Hins.
    + apply (Hins acc []). now rewrite app_nil_r.
Qed.

Ltac split_matches H :=
  repeat match type of H with
         | context [match ?x with _ => _ end] => destruct x eqn:?; try discriminate H
         end.

(** Whatever the parser reads is a tree of JSON. *)
Lemma parse_json_tree (fuel : nat) :
  (forall s v rest, JSON.parse_value fuel s = Some (v, rest) -> json_tree v = true)
  /\ (forall s acc v rest,
         Forall (fun x => json_tree x = true) acc ->
         JSON.parse_elements fuel s acc = Some (v, rest) -> json_tree v = true)
  /\ (forall s acc v rest,
         gathered acc ->
         JSON.parse_members fuel s acc = Some (v, rest) -> json_tree v = true).
Proof.
  induction fuel as [|fuel (IHv & IHe & IHm)];
    [repeat split; intros; discriminate|].
  assert (Hobj : forall acc, gathered acc -> json_tree (VObj acc) = true).
  { intros acc [Hvals Hkeys]. cbn [json_tree]. apply andb_true_iff. split.
    - apply forallb_forall. rewrite Forall_forall in Hvals. exact Hvals.
    - now apply distinct_NoDup. }
  repeat split.
  - intros s v rest H. cbn [JSON.parse_value] in H.
    unfold option_map in H. split_matches H;
      try (injection H as <- _; reflexivity).
    + eapply IHm; [|exact H]. split; constructor.
    + eapply IHe; [|exact H]. constructor.
  - intros s acc v rest Hacc H. cbn [JSON.parse_elements] in H.
    split_matches H;
      match goal with
      | E : JSON.parse_value fuel _ = Some _ |- _ => apply IHv in E
      end;
      assert (Hacc' : Forall (fun x => json_tree x = true) (acc ++ [v0])%list)
        by (apply Forall_app; split; [exact Hacc | now constructor]).
    + eapply IHe; [exact Hacc' | exact H].
    + injection H as <- _. cbn [json_tree]. apply forallb_forall.
      rewrite Forall_forall in Hacc'. exact Hacc'.
  - intros s acc v rest Hacc H. cbn [JSON.parse_members] in H.
    split_matches H;
      match goal with
      | E : JSON.parse_value fuel _ = Some _ |- _ => apply IHv in E
      end.
    + eapply IHm; [|exact H]. now apply define_property_gathered.
    + injection H as <- _. apply Hobj. now apply define_property_gathered.
Qed.

(** X8: whatever [replaceKeys] returns is a tree of JSON: it holds no
    [undefined], no number that is not finite and no [Error], and no object
    in it has two properties under one key. *)
Theorem replaceKeys_returns_json (v r : value) :
  replaceKeys v = inr r -> json_tree r = true.
Proof.
  unfold replaceKeys. destruct (JSON.stringify v) as [t|]; [|discriminate].
  unfold JSON.parse.
  destruct (JSON.parse_value _ _) as [[v' rest]|] eqn:E; [|discriminate].
  destruct (JSON.is_empty (JSON.skip_ws rest)); [|discriminate].
  intros H. injection H as <-.
  exact (proj1 (parse_json_tree _) _ _ _ E).
Qed.

Lemma replaceKeys_returns_json_witness :
  json_tree (VObj [("a", VArr [VNull; VNull; VObj []])]) = true.
Proof.
  exact (replaceKeys_returns_json
           (VObj [("ns1:a", VArr [VUndefined; VNum NaN; VError (TypeError "x")]);
                  ("b", VUndefined)])
           _ eq_refl).
Defined.

(** ** The handlers *)

(** X9: when the XML conversion throws, the [end] listener emits nothing,
    [messageErr] no more than anything else: the conversion is called before
    the [try], and its exception leaves the listener. *)
Theorem stream_conversion_failure {world : Type} (common : common_module world)
        (xml2json : xml2json_module world) (type : value) (message : frame)
        (chunks : list string) (failure : error)
        (this : Darwin.darwin) (w w1 : world) :
  toJson xml2json (String.concat EmptyString chunks) Darwin.toJsonOptions w
  = (inl failure, w1) ->
  Darwin.stream common xml2json type message (map Data chunks ++ [End])%list []
    (this, w)
  = (inl failure, (this, w1)).
Proof.
  intros Hxml. rewrite stream_data. cbn [app Darwin.stream].
  unfold Eff.bind at 1. unfold Darwin.on_end, Eff.bind at 1, Darwin.call.
  cbn [fst snd]. now rewrite Hxml.
Qed.

Lemma stream_conversion_failure_witness :
  Darwin.stream Example.common Example.xml2json (VStr "SCHEDULE,")
    Example.malformed_frame
    (map Data Example.mismatched_chunks ++ [End])%list []
    (Example.fresh, 0)
  = (inl (Error "Error" "There are errors in your xml file: mismatched tag"
            "Error: There are errors in your xml file: mismatched tag"),
     (Example.fresh, 0)).
Proof.
  exact (stream_conversion_failure Example.common Example.xml2json (VStr "SCHEDULE,")
           Example.malformed_frame Example.mismatched_chunks
           _ Example.fresh 0 0 eq_refl).
Defined.

(** X10: a message under a header that is none of the five literals, a
    missing header included, comes out as one [unhandledMessage] that holds
    the transformed record; no constructor is called. *)
Theorem on_end_unhandled {world : Type} (common : common_module world)
        (xml2json : xml2json_module world) (type : value) (buffer : list string)
        (xml : value) (this : Darwin.darwin) (w w1 : world) :
  toJson xml2json (String.concat EmptyString buffer) Darwin.toJsonOptions w = (inr xml, w1) ->
  xml <> VUndefined ->
  Transform.well_formed xml = true ->
  (forall s, type = VStr s -> ~ In s recognized_types) ->
  Darwin.on_end common xml2json type buffer (this, w)
  = (inr tt,
     (Darwin.emitted_as this "unhandledMessage" [Transform.transformed xml], w1)).
Proof.
  intros Hxml Hdef Hwf Hun.
  rewrite (on_end_converted common xml2json type buffer xml this w w1 Hxml Hdef Hwf).
  now rewrite (getMessage_unhandled common type _ w1 Hun).
Qed.

Lemma on_end_unhandled_witness :
  Darwin.on_end Example.common Example.xml2json VUndefined Example.schedule_chunks
    (Example.fresh, 0)
  = (inr tt,
     (Darwin.emitted_as Example.fresh "unhandledMessage"
        [Transform.transformed Example.converted], 0)).
Proof.
  apply (on_end_unhandled Example.common Example.xml2json VUndefined
           Example.schedule_chunks Example.converted Example.fresh 0 0 eq_refl);
    [discriminate | reflexivity | discriminate].
Defined.

(** X11: from the frame to the event.  A frame under the header
    [SCHEDULE,], read in one notification whose stream runs to its end, makes
    the instance emit exactly one [schedule]; its fields are read from the
    record [replaceKeys] made of the converted text, and its schedule is what
    the constructor returned for [Pport.uR.schedule] of that record. *)
Theorem on_message_schedule {world : Type} (common : common_module world)
        (xml2json : xml2json_module world) (message : frame) (chunks : list string)
        (xml ts origin id source sub d : value)
        (this : Darwin.darwin) (w w1 w2 : world) :
  get (headers message) "FilterHeaderLevel" = inr (VStr "SCHEDULE,") ->
  readable message = [(map Data chunks ++ [End])%list] ->
  toJson xml2json (String.concat EmptyString chunks) Darwin.toJsonOptions w = (inr xml, w1) ->
  xml <> VUndefined ->
  Transform.well_formed xml = true ->
  read (Transform.transformed xml) ["Pport"; "uR"; "requestID"] = inr id ->
  read (Transform.transformed xml) ["Pport"; "ts"] = inr ts ->
  read (Transform.transformed xml) ["Pport"; "uR"; "schedule"] = inr sub ->
  Schedule common sub w1 = (inr d, w2) ->
  read (Transform.transformed xml) ["Pport"; "uR"; "updateOrigin"] = inr origin ->
  read (Transform.transformed xml) ["Pport"; "uR"; "requestSource"] = inr source ->
  Darwin.on_message common xml2json VNull (Some message) (this, w)
  = (inr tt,
     (Darwin.emitted_as this "schedule"
        [VObj [("id", id); ("ts", ts); ("schedule", d);
               ("origin", origin); ("source", source)]], w2)).
Proof.
  intros Htype Hread Hxml Hdef Hwf Hid Hts Hsub Hctor Horigin Hsource.
  unfold Darwin.on_message. cbn [to_boolean].
  unfold Eff.bind at 1, Eff.lift. rewrite Htype, Hread.
  cbn [Darwin.on_readable]. unfold Eff.bind at 1.
  rewrite stream_data. cbn [app Darwin.stream]. unfold Eff.bind at 1.
  rewrite (on_end_converted common xml2json _ chunks xml this w w1 Hxml Hdef Hwf).
  assert (Hget : Darwin.getMessage common (VStr "SCHEDULE,") (Transform.transformed xml) w1
                 = (inr ("schedule",
                         VObj [("id", id); ("ts", ts); ("schedule", d);
                               ("origin", origin); ("source", source)]), w2)).
  { run_getMessage. now rewrite Hid, Hts, Hsub, Hctor, Horigin, Hsource. }
  rewrite Hget. reflexivity.
Qed.

Lemma on_message_schedule_witness :
  Darwin.on_message Example.common Example.xml2json VNull
    (Some Example.schedule_frame) (Example.fresh, 0)
  = (inr tt,
     (Darwin.emitted_as Example.fresh "schedule"
        [VObj [("id", VStr "AM02096042");
               ("ts", VStr "2017-06-01T10:00:00");
               ("schedule", Example.schedule);
               ("origin", VStr "CIS");
               ("source", VStr "at21")]], 0)).
Proof.
  apply (on_message_schedule Example.common Example.xml2json Example.schedule_frame
           Example.schedule_chunks Example.converted
           (VStr "2017-06-01T10:00:00") (VStr "CIS") (VStr "AM02096042") (VStr "at21")
           (VObj [("rid", VNum (Finite "201706017170001"));
                  ("trainId", VStr "0B00");
                  ("locations",
                   VArr [VObj [("tpl", VStr "EUSTON")];
                         VObj [("tpl", VStr "WATFDJ")]])])
           Example.schedule Example.fresh 0 0 0);
    try reflexivity. discriminate.
Defined.

(** X12: how the decoded text is cut into chunks does not matter to a
    stream that runs to its end: two streams whose chunks join to the same
    text leave the same events and the same state. *)
Theorem stream_chunking {world : Type} (common : common_module world)
        (xml2json : xml2json_module world) (type : value) (message : frame)
        (chunks chunks' : list string) (this : Darwin.darwin) (w : world) :
  String.concat EmptyString chunks = String.concat EmptyString chunks' ->
  Darwin.stream common xml2json type message (map Data chunks ++ [End])%list []
    (this, w)
  = Darwin.stream common xml2json type message (map Data chunks' ++ [End])%list []
      (this, w).
Proof.
  intros Hjoin. rewrite !stream_data. cbn [app Darwin.stream].
  unfold Darwin.on_end. now rewrite Hjoin.
Qed.

Lemma stream_chunking_witness :
  Darwin.stream Example.common Example.xml2json (VStr "SCHEDULE,")
    Example.schedule_frame (map Data Example.schedule_chunks ++ [End])%list []
    (Example.fresh, 0)
  = Darwin.stream Example.common Example.xml2json (VStr "SCHEDULE,")
      Example.schedule_frame (map Data [Example.schedule_xml] ++ [End])%list []
      (Example.fresh, 0).
Proof.
  exact (stream_chunking Example.common Example.xml2json (VStr "SCHEDULE,")
           Example.schedule_frame Example.schedule_chunks [Example.schedule_xml]
           Example.fresh 0 eq_refl).
Defined.

Lemma emit_cases {world : Type} (event : string) (args : list value)
      (this : Darwin.darwin) (w : world) :
  Darwin.emit event args (this, w)
  = (inr tt, (Darwin.emitted_as this event args, w))
  \/ exists e, Darwin.emit event args (this, w) = (inl e, (this, w)).
Proof.
  unfold Darwin.emit. cbn [fst snd].
  destruct (String.eqb event "error" && negb (Darwin.listens this "error"));
    [right; eauto | now left].
Qed.

Lemma on_end_at_most_one {world : Type} (common : common_module world)
      (xml2json : xml2json_module world) (type : value) (buffer : list string)
      (this this' : Darwin.darwin) (w w' : world) (r : result unit) :
  Darwin.on_end common xml2json type buffer (this, w) = (r, (this', w')) ->
  this' = this \/ exists event args, this' = Darwin.emitted_as this event args.
Proof.
  unfold Darwin.on_end, Eff.bind, Darwin.call, Eff.lift, Eff.try_catch.
  cbn [fst snd].
  destruct (toJson xml2json _ _ w) as [[e|xml] w1].
  - intros H. injection H as _ <- _. now left.
  - destruct (replaceKeys xml) as [e|messageJSON].
    + intros H. injection H as _ <- _. now left.
    + cbn [fst snd].
      destruct (Darwin.getMessage common type messageJSON w1) as [[e|ev] w2];
        cbn [fst snd].
      * rewrite emit_event by reflexivity.
        intros H; injection H as _ <- _; right; eauto.
      * destruct (emit_cases (fst ev) [snd ev] this w2) as [->|[e ->]].
        -- intros H; injection H as _ <- _; right; eauto.
        -- rewrite emit_event by reflexivity.
           intros H; injection H as _ <- _; right; eauto.
Qed.

Lemma on_error_at_most_one {world : Type} (error : error) (message : frame)
      (buffer : list string) (this this' : Darwin.darwin) (w w' : world)
      (r : result unit) :
  Darwin.on_error error message buffer (this, w) = (r, (this', w')) ->
  this' = this \/ exists event args, this' = Darwin.emitted_as this event args.
Proof.
  unfold Darwin.on_error, Eff.ret.
  destruct (0 <? List.length buffer)%nat.
  - destruct (emit_cases "error" [VError error; headers message] this w)
      as [->|[e ->]]; intros H; injection H as _ <- _; [right; eauto | now left].
  - intros H; injection H as _ <- _. now left.
Qed.

(** X13: a gunzip stream makes the instance emit at most one event for each
    [end] or [error] it tells, and none for data, whatever the collaborators
    do; the events emitted before stay as they are, and the channel and the
    subscriptions are not touched. *)
Theorem stream_emits_at_most_one_per_ending {world : Type}
        (common : common_module world) (xml2json : xml2json_module world)
        (type : value) (message : frame) (events : list stream_event) :
  forall (buffer : list string) (this this' : Darwin.darwin) (w w' : world)
         (r : result unit),
    Darwin.stream common xml2json type message events buffer (this, w)
    = (r, (this', w')) ->
    exists new,
      Darwin.emitted this' = (Darwin.emitted this ++ new)%list
      /\ List.length new <= endings events
      /\ Darwin._channel this' = Darwin._channel this
      /\ Darwin.subscriptions this' = Darwin.subscriptions this.
Proof.
  assert (Hstep : forall (m : Eff.M (Darwin.darwin * world) unit) rest buffer,
    (forall this this' w w' r, m (this, w) = (r, (this', w')) ->
       this' = this \/ exists event args, this' = Darwin.emitted_as this event args) ->
    (forall this this' w w' r,
       Darwin.stream common xml2json type message rest buffer (this, w)
       = (r, (this', w')) ->
       exists new,
         Darwin.emitted this' = (Darwin.emitted this ++ new)%list
         /\ List.length new <= endings rest
         /\ Darwin._channel this' = Darwin._channel this
         /\ Darwin.subscriptions this' = Darwin.subscriptions this) ->
    forall this this' w w' r,
      (m ;;; Darwin.stream common xml2json type message rest buffer) (this, w)
      = (r, (this', w')) ->
      exists new,
        Darwin.emitted this' = (Darwin.emitted this ++ new)%list
        /\ List.length new <= S (endings rest)
        /\ Darwin._channel this' = Darwin._channel this
        /\ Darwin.subscriptions this' = Darwin.subscriptions this).
  { intros m rest buffer Hm Hrest this this' w w' r H.
    unfold Eff.bind in H.
    destruct (m (this, w)) as [[e|[]] [this1 w1]] eqn:E;
      destruct (Hm _ _ _ _ _ E) as [->|(event & args & ->)].
    - injection H as _ <- _. exists []. rewrite app_nil_r. cbn. repeat split; lia.
    - injection H as _ <- _. exists [(event, args)]. cbn. repeat split; lia.
    - destruct (Hrest _ _ _ _ _ H) as (new & H1 & H2 & H3 & H4).
      exists new. repeat split; auto.
    - destruct (Hrest _ _ _ _ _ H) as (new & H1 & H2 & H3 & H4).
      exists ((event, args) :: new). cbn [Darwin.emitted_as Darwin.emitted
        Darwin._channel Darwin.subscriptions] in *.
      rewrite H1, <- app_assoc. cbn. repeat split; auto; lia. }
  induction events as [|[data| |error] rest IH]; intros buffer this this' w w' r H.
  - injection H as _ <- _. exists []. rewrite app_nil_r. cbn. repeat split; lia.
  - cbn [Darwin.stream endings] in *. now apply IH in H.
  - cbn [Darwin.stream endings] in *.
    eapply Hstep; [| intros; eapply (IH buffer); eassumption | exact H].
    intros. eapply on_end_at_most_one. eassumption.
  - cbn [Darwin.stream endings] in *.
    eapply Hstep; [| intros; eapply (IH buffer); eassumption | exact H].
    intros. eapply on_error_at_most_one. eassumption.
Qed.

(** The schedule message of the examples, of which the stream tells two
    chunks and the end, and a stream that fails after one chunk. *)
Lemma stream_emits_at_most_one_per_ending_witness :
  (exists new,
      Darwin.emitted
        (Darwin.emitted_as Example.listening "schedule"
           [VObj [("id", VStr "AM02096042");
                  ("ts", VStr "2017-06-01T10:00:00");
                  ("schedule", Example.schedule);
                  ("origin", VStr "CIS");
                  ("source", VStr "at21")]])
      = (Darwin.emitted Example.listening ++ new)%list
      /\ List.length new <= endings (map Data Example.schedule_chunks ++ [End])%list
      /\ Darwin._channel
           (Darwin.emitted_as Example.listening "schedule"
              [VObj [("id", VStr "AM02096042");
                     ("ts", VStr "2017-06-01T10:00:00");
                     ("schedule", Example.schedule);
                     ("origin", VStr "CIS");
                     ("source", VStr "at21")]])
         = Darwin._channel Example.listening
      /\ Darwin.subscriptions
           (Darwin.emitted_as Example.listening "schedule"
              [VObj [("id", VStr "AM02096042");
                     ("ts", VStr "2017-06-01T10:00:00");
                     ("schedule", Example.schedule);
                     ("origin", VStr "CIS");
                     ("source", VStr "at21")]])
         = Darwin.subscriptions Example.listening)
  /\ (exists new,
         Darwin.emitted
           (Darwin.emitted_as Example.listening "error"
              [VError Example.failure; headers Example.failing_frame])
         = (Darwin.emitted Example.listening ++ new)%list
         /\ List.length new
            <= endings [Data "<Pport ts='2017-06-01T10:00:00'>"; Failed Example.failure]
         /\ Darwin._channel
              (Darwin.emitted_as Example.listening "error"
                 [VError Example.failure; headers Example.failing_frame])
            = Darwin._channel Example.listening
         /\ Darwin.subscriptions
              (Darwin.emitted_as Example.listening "error"
                 [VError Example.failure; headers Example.failing_frame])
            = Darwin.subscriptions Example.listening).
Proof.
  split.
  - exact (stream_emits_at_most_one_per_ending Example.common Example.xml2json
             (VStr "SCHEDULE,") Example.schedule_frame
             (map Data Example.schedule_chunks ++ [End])%list
             [] Example.listening _ 0 0 (inr tt) eq_refl).
  - exact (stream_emits_at_most_one_per_ending Example.common Example.xml2json
             (VStr "SCHEDULE,") Example.failing_frame
             [Data "<Pport ts='2017-06-01T10:00:00'>"; Failed Example.failure]
             [] Example.listening _ 0 0 (inr tt) eq_refl).
Defined.

(** ** The record as JSON text, and back *)

(** *** Array indices *)

Lemma digit_value_inj (c c' : ascii) :
  is_digit c = true -> is_digit c' = true ->
  nat_of_ascii c - 48 = nat_of_ascii c' - 48 -> c = c'.
Proof.
  unfold is_digit. intros H H' E.
  apply andb_true_iff in H as [H1 H2], H' as [H1' H2'].
  apply Nat.leb_le in H1, H2, H1', H2'.
  rewrite <- (ascii_nat_embedding c), <- (ascii_nat_embedding c').
  f_equal. lia.
Qed.

Lemma digit_value_bound (c : ascii) :
  is_digit c = true -> (N.of_nat (nat_of_ascii c - 48) < 10)%N.
Proof.
  unfold is_digit. intros H. apply andb_true_iff in H as [H1 H2].
  apply Nat.leb_le in H1, H2. lia.
Qed.

(** The value of a string of digits read after [acc]. *)
Lemma decimal_value_bounds (s : string) :
  forall acc n, JSON.decimal_value s acc = Some n ->
    (acc * 10 ^ N.of_nat (String.length s) <= n
     < (acc + 1) * 10 ^ N.of_nat (String.length s))%N.
Proof.
  induction s as [|c s IH]; intros acc n H.
  - cbn in H. injection H as <-. cbn. lia.
  - cbn [JSON.decimal_value] in H. destruct (is_digit c) eqn:Hc; [|discriminate H].
    apply IH in H. pose proof (digit_value_bound c Hc) as Hd.
    cbn [String.length]. rewrite Nat2N.inj_succ, N.pow_succ_r'.
    set (p := (10 ^ N.of_nat (String.length s))%N) in *.
    set (d := N.of_nat (nat_of_ascii c - 48)) in *.
    nia.
Qed.

Lemma decimal_value_inj (s : string) :
  forall s' acc acc' n,
    String.length s = String.length s' ->
    JSON.decimal_value s acc = Some n -> JSON.decimal_value s' acc' = Some n ->
    s = s' /\ acc = acc'.
Proof.
  induction s as [|c s IH]; intros [|c' s'] acc acc' n Hlen H H'; try discriminate Hlen.
  - cbn in H, H'. split; congruence.
  - cbn [JSON.decimal_value] in H, H'.
    destruct (is_digit c) eqn:Hc; [|discriminate H].
    destruct (is_digit c') eqn:Hc'; [|discriminate H'].
    injection Hlen as Hlen.
    destruct (IH s' _ _ n Hlen H H') as [-> E].
    pose proof (digit_value_bound c Hc). pose proof (digit_value_bound c' Hc').
    assert (acc = acc' /\ nat_of_ascii c - 48 = nat_of_ascii c' - 48) as [-> Ed] by lia.
    now rewrite (digit_value_inj c c' Hc Hc' Ed).
Qed.

Lemma decimal_value_digit (s : string) (acc n : N) :
  JSON.decimal_value s acc = Some n ->
  match s with
  | EmptyString => True
  | String c _ => is_digit c = true
  end.
Proof.
  destruct s as [|c s]; [trivial|]. cbn [JSON.decimal_value].
  destruct (is_digit c); [trivial | discriminate].
Qed.

(** A canonical numeral of several digits does not start with a zero, so
    its value tells its length. *)
Lemma array_index_length (k : string) (n : N) :
  JSON.array_index k = Some n ->
  JSON.decimal_value k 0 = Some n
  /\ (String.length k = 1 \/ (10 ^ N.of_nat (String.length k - 1) <= n)%N)
  /\ 1 <= String.length k.
Proof.
  unfold JSON.array_index. destruct k as [|c k]; [discriminate|].
  destruct (Ascii.eqb_spec c "0") as [->|Hc].
  - destruct k as [|c' k]; [|discriminate]. cbn [negb andb JSON.is_empty].
    destruct (JSON.decimal_value "0" 0) as [m|] eqn:E; [|discriminate].
    destruct (m <? 4294967295)%N; [|discriminate]. intros H. injection H as <-.
    repeat split; auto.
  - cbn [andb].
    destruct (JSON.decimal_value (String c k) 0) as [m|] eqn:E; [|discriminate].
    destruct (m <? 4294967295)%N; [|discriminate]. intros H. injection H as <-.
    repeat split; [| cbn; lia].
    right. cbn [JSON.decimal_value] in E.
    destruct (is_digit c) eqn:Hd; [|discriminate E].
    apply decimal_value_bounds in E. cbn [String.length].
    replace (S (String.length k) - 1) with (String.length k) by lia.
    assert (1 <= N.of_nat (nat_of_ascii c - 48))%N.
    { unfold is_digit in Hd. apply andb_true_iff in Hd as [H1 H2].
      apply Nat.leb_le in H1, H2.
      assert (nat_of_ascii c <> 48).
      { intros E48. apply Hc. rewrite <- (ascii_nat_embedding c), E48. reflexivity. }
      lia. }
    set (p := (10 ^ N.of_nat (String.length k))%N) in *. nia.
Qed.

Lemma array_index_inj (k k' : string) (n : N) :
  JSON.array_index k = Some n -> JSON.array_index k' = Some n -> k = k'.
Proof.
  intros H H'.
  destruct (array_index_length k n H) as (E & Hlo & Hpos).
  destruct (array_index_length k' n H') as (E' & Hlo' & Hpos').
  pose proof (decimal_value_bounds k 0 n E) as Hb.
  pose proof (decimal_value_bounds k' 0 n E') as Hb'.
  assert (Hlen : String.length k = String.length k').
  { destruct (Nat.lt_trichotomy (String.length k) (String.length k')) as [Hlt|[Heq|Hgt]];
      [exfalso | exact Heq | exfalso].
    - destruct Hlo' as [Hone|Hlo']; [lia|].
      assert (10 ^ N.of_nat (String.length k) <= 10 ^ N.of_nat (String.length k' - 1))%N
        by (apply N.pow_le_mono_r; lia).
      lia.
    - destruct Hlo as [Hone|Hlo]; [lia|].
      assert (10 ^ N.of_nat (String.length k') <= 10 ^ N.of_nat (String.length k - 1))%N
        by (apply N.pow_le_mono_r; lia).
      lia. }
  exact (proj1 (decimal_value_inj k k' 0 0 n Hlen E E')).
Qed.

(** *** The order of properties *)

Lemma ordered_cons (k : string) (keys : list string) :
  ordered (k :: keys) = true <->
  (forall k', In k' keys -> precedes k k' = true /\ k <> k') /\ ordered keys = true.
Proof.
  cbn [ordered]. rewrite andb_true_iff, forallb_forall. split.
  - intros [H Hk]. split; [|exact Hk]. intros k' Hin.
    specialize (H k' Hin). apply andb_true_iff in H as [H1 H2].
    apply negb_true_iff, String.eqb_neq in H2. now split.
  - intros [H Hk]. split; [|exact Hk]. intros k' Hin.
    destruct (H k' Hin) as [H1 H2]. apply String.eqb_neq in H2.
    now rewrite H1, H2.
Qed.

Lemma ordered_app (l l' : list string) :
  ordered (l ++ l')%list = true <->
  ordered l = true /\ ordered l' = true
  /\ (forall k k', In k l -> In k' l' -> precedes k k' = true /\ k <> k').
Proof.
  induction l as [|a l IH].
  - cbn. split; [intros H; repeat split; auto; contradiction | tauto].
  - cbn [app]. rewrite !ordered_cons, IH. split.
    + intros (Ha & Hl & Hl' & Hx). repeat split; auto.
      * apply Ha, in_or_app. now left.
      * apply Ha, in_or_app. now left.
      * destruct H as [<-|H]; [apply Ha, in_or_app; now right | now apply Hx].
      * destruct H as [<-|H]; [apply Ha, in_or_app; now right | now apply Hx].
    + intros ((Ha & Hl) & Hl' & Hx). repeat split; auto.
      * apply in_app_or in H as [H|H]; [now apply Ha | apply Hx; [now left | exact H]].
      * apply in_app_or in H as [H|H]; [now apply Ha | apply Hx; [now left | exact H]].
      * apply Hx; [now right | assumption].
      * apply Hx; [now right | assumption].
Qed.

Lemma insert_index_keys (i : N) (k : string) (v : value) (acc : list (string * value))
      (x : string) :
  In x (map fst (JSON.insert_index i k v acc)) -> x = k \/ In x (map fst acc).
Proof.
  destruct (insert_index_spec i k v acc) as (before & after & -> & ->).
  rewrite !map_app. cbn [map fst]. intros H.
  apply in_app_or in H as [H|[H|H]]; auto using in_or_app.
Qed.

Lemma insert_index_ordered (i : N) (k : string) (v : value)
      (acc : list (string * value)) :
  JSON.array_index k = Some i ->
  ~ In k (map fst acc) ->
  ordered (map fst acc) = true ->
  ordered (map fst (JSON.insert_index i k v acc)) = true.
Proof.
  intros Hk. induction acc as [|[k' v'] acc IH]; intros Hnew Hord; [reflexivity|].
  cbn [map fst] in Hnew, Hord. apply ordered_cons in Hord as [Hfirst Hrest].
  assert (Hne : k <> k') by (intros ->; apply Hnew; now left).
  assert (Hnew' : ~ In k (map fst acc)) by (intros H; apply Hnew; now right).
  cbn [JSON.insert_index].
  destruct (JSON.array_index k') as [j|] eqn:Hk'.
  - destruct (j <? i)%N eqn:Hji.
    + cbn [map fst]. apply ordered_cons. split; [|now apply IH].
      intros x Hx. apply insert_index_keys in Hx as [->|Hx]; [|now apply Hfirst].
      split; [|congruence]. unfold precedes. now rewrite Hk', Hk.
    + cbn [map fst]. apply ordered_cons. split;
        [| apply ordered_cons; now split].
      assert (Hij : (i <? j)%N = true).
      { apply N.ltb_ge in Hji. apply N.ltb_lt.
        assert (i <> j)
          by (intros ->; apply Hne; exact (array_index_inj k k' j Hk Hk')).
        lia. }
      intros x [<-|Hx].
      * split; [|exact Hne]. unfold precedes. now rewrite Hk, Hk'.
      * split; [|intros ->; contradiction].
        destruct (Hfirst x Hx) as [Hp _]. unfold precedes in *.
        rewrite Hk' in Hp. rewrite Hk.
        destruct (JSON.array_index x) as [m|]; [|reflexivity].
        apply N.ltb_lt in Hp, Hij. apply N.ltb_lt. lia.
  - cbn [map fst]. apply ordered_cons. split;
      [| apply ordered_cons; now split].
    intros x [<-|Hx].
    + split; [|exact Hne]. unfold precedes. now rewrite Hk, Hk'.
    + split; [|intros ->; contradiction].
      destruct (Hfirst x Hx) as [Hp _]. unfold precedes in *.
      rewrite Hk' in Hp. rewrite Hk.
      destruct (JSON.array_index x) as [m|]; [discriminate Hp | reflexivity].
Qed.

Lemma define_property_ordered (acc : list (string * value)) (k : string) (v : value) :
  ordered (map fst acc) = true ->
  ordered (map fst (JSON.define_property acc k v)) = true.
Proof.
  intros Hord. unfold JSON.define_property.
  destruct (JSON.has_key k acc) eqn:Hk; [now rewrite overwrite_keys|].
  assert (Hnew : ~ In k (map fst acc))
    by (intros Hin; apply has_key_spec in Hin; congruence).
  destruct (JSON.array_index k) as [i|] eqn:Hi.
  - now apply insert_index_ordered.
  - rewrite map_app. cbn [map fst]. apply ordered_app. repeat split; auto.
    + destruct H0 as [<-|[]]. unfold precedes. rewrite Hi.
      now destruct (JSON.array_index k0).
    + destruct H0 as [<-|[]]. intros ->. contradiction.
Qed.

Lemma insert_index_last (i : N) (k : string) (v : value) (acc : list (string * value)) :
  (forall k', In k' (map fst acc) ->
     exists j, JSON.array_index k' = Some j /\ (j <? i)%N = true) ->
  JSON.insert_index i k v acc = (acc ++ [(k, v)])%list.
Proof.
  induction acc as [|[k' v'] acc IH]; intros H; [reflexivity|].
  cbn [JSON.insert_index].
  destruct (H k') as (j & -> & ->); [now left|].
  cbn [app]. rewrite IH; [reflexivity|].
  intros x Hx. apply H. now right.
Qed.

(** Defining, in order, the properties of an object that is in order builds
    the object again. *)
Lemma define_property_next (acc : list (string * value)) (k : string) (v : value) :
  (forall k', In k' (map fst acc) -> precedes k' k = true /\ k' <> k) ->
  JSON.define_property acc k v = (acc ++ [(k, v)])%list.
Proof.
  intros H. unfold JSON.define_property.
  assert (Hnew : ~ In k (map fst acc)) by (intros Hin; now destruct (H k Hin)).
  rewrite (has_key_in k acc Hnew).
  destruct (JSON.array_index k) as [i|] eqn:Hi; [|reflexivity].
  apply insert_index_last. intros k' Hk'.
  destruct (H k' Hk') as [Hp _]. unfold precedes in Hp. rewrite Hi in Hp.
  destruct (JSON.array_index k') as [j|]; [|discriminate Hp]. eauto.
Qed.

Lemma canonical_defined (v : value) : canonical v = true -> v <> VUndefined.
Proof. intros H ->. discriminate H. Qed.

Lemma build_canonical (ps acc : list (string * value)) :
  Forall (fun kx : string * value =>
            canonical (snd kx) = true /\ Transform.reparsed (snd kx) = snd kx) ps ->
  ordered (map fst acc ++ map fst ps)%list = true ->
  Transform.build ps acc = (acc ++ ps)%list.
Proof.
  revert acc. induction ps as [|[k x] ps IH]; intros acc Hps Hord.
  - cbn. now rewrite app_nil_r.
  - inversion Hps as [|? ? [Hx Hre] Hrest]; subst. cbn [snd] in *.
    rewrite build_defined by now apply canonical_defined.
    rewrite Hre. cbn [map fst] in Hord.
    rewrite define_property_next.
    + rewrite IH; [now rewrite <- app_assoc | exact Hrest |].
      rewrite map_app. cbn [map fst]. now rewrite <- app_assoc.
    + apply ordered_app in Hord as (_ & _ & Hx'). intros k' Hk'.
      apply Hx'; [exact Hk' | now left].
Qed.

Lemma reparsed_canonical (v : value) :
  canonical v = true -> Transform.reparsed v = v.
Proof.
  induction v as [| |b|n|s|l IH|ps IH|e] using value_ind'; intros H;
    try reflexivity; try discriminate H.
  - destruct n as [lit| |neg]; [reflexivity | discriminate H | discriminate H].
  - cbn [canonical] in H. rewrite forallb_forall in H.
    cbn [Transform.reparsed]. f_equal. rewrite <- (map_id l) at 2.
    apply map_ext_in. intros x Hx. rewrite Forall_forall in IH. auto.
  - cbn [canonical] in H. apply andb_true_iff in H as [Hvals Hord].
    rewrite forallb_forall in Hvals. rewrite reparsed_object. f_equal.
    rewrite build_canonical; [reflexivity | | exact Hord].
    rewrite Forall_forall in *. intros kx Hkx. split; auto.
Qed.

Lemma canonical_well_formed (v : value) :
  canonical v = true -> Transform.well_formed v = true.
Proof.
  induction v as [| |b|n|s|l IH|ps IH|e] using value_ind'; intros H;
    try reflexivity; try discriminate H.
  - destruct n as [lit| |neg]; [exact H | discriminate H | discriminate H].
  - cbn [canonical] in H. rewrite forallb_forall in H.
    cbn [Transform.well_formed]. apply forallb_forall.
    rewrite Forall_forall in IH. auto.
  - cbn [canonical] in H. apply andb_true_iff in H as [Hvals _].
    rewrite forallb_forall in Hvals.
    cbn [Transform.well_formed]. apply forallb_forall.
    rewrite Forall_forall in IH. auto.
Qed.

(** Whatever the parser reads is canonical. *)
Lemma parse_canonical (fuel : nat) :
  (forall s v rest, JSON.parse_value fuel s = Some (v, rest) -> canonical v = true)
  /\ (forall s acc v rest,
         Forall (fun x => canonical x = true) acc ->
         JSON.parse_elements fuel s acc = Some (v, rest) -> canonical v = true)
  /\ (forall s acc v rest,
         Forall (fun kx : string * value => canonical (snd kx) = true) acc ->
         ordered (map fst acc) = true ->
         JSON.parse_members fuel s acc = Some (v, rest) -> canonical v = true).
Proof.
  induction fuel as [|fuel (IHv & IHe & IHm)];
    [repeat split; intros; discriminate|].
  assert (Hdef : forall acc k v,
             Forall (fun kx : string * value => canonical (snd kx) = true) acc ->
             canonical v = true ->
             Forall (fun kx : string * value => canonical (snd kx) = true)
               (JSON.define_property acc k v)).
  { intros acc k v Hacc Hv. unfold JSON.define_property.
    destruct (JSON.has_key k acc).
    - induction Hacc as [|[k' v'] acc Hx Hacc IH]; [constructor|].
      cbn [JSON.overwrite]. destruct (String.eqb k k'); constructor; auto.
    - destruct (JSON.array_index k) as [i|].
      + destruct (insert_index_spec i k v acc) as (before & after & -> & ->).
        apply Forall_app in Hacc as [H1 H2]. apply Forall_app. split; auto.
      + apply Forall_app. split; [exact Hacc | now constructor]. }
  assert (Hobj : forall acc,
             Forall (fun kx : string * value => canonical (snd kx) = true) acc ->
             ordered (map fst acc) = true -> canonical (VObj acc) = true).
  { intros acc Hvals Hord. cbn [canonical]. apply andb_true_iff. split; [|exact Hord].
    apply forallb_forall. rewrite Forall_forall in Hvals. exact Hvals. }
  repeat split.
  - intros s v rest H. cbn [JSON.parse_value] in H.
    unfold option_map in H. split_matches H;
      try (injection H as <- _; reflexivity).
    + eapply IHm; [| |exact H]; [constructor | reflexivity].
    + eapply IHe; [|exact H]. constructor.
    + injection H as <- _. cbn [canonical]. assumption.
  - intros s acc v rest Hacc H. cbn [JSON.parse_elements] in H.
    split_matches H;
      match goal with
      | E : JSON.parse_value fuel _ = Some _ |- _ => apply IHv in E
      end;
      assert (Hacc' : Forall (fun x => canonical x = true) (acc ++ [v0])%list)
        by (apply Forall_app; split; [exact Hacc | now constructor]).
    + eapply IHe; [exact Hacc' | exact H].
    + injection H as <- _. cbn [canonical]. apply forallb_forall.
      rewrite Forall_forall in Hacc'. exact Hacc'.
  - intros s acc v rest Hacc Hord H. cbn [JSON.parse_members] in H.
    split_matches H;
      match goal with
      | E : JSON.parse_value fuel _ = Some _ |- _ => apply IHv in E
      end.
    + eapply IHm; [| |exact H];
        [now apply Hdef | now apply define_property_ordered].
    + injection H as <- _. apply Hobj;
        [now apply Hdef | now apply define_property_ordered].
Qed.

Lemma replaceKeys_canonical (v r : value) :
  replaceKeys v = inr r -> canonical r = true.
Proof.
  unfold replaceKeys. destruct (JSON.stringify v) as [t|]; [|discriminate].
  unfold JSON.parse.
  destruct (JSON.parse_value _ _) as [[v' rest]|] eqn:E; [|discriminate].
  destruct (JSON.is_empty (JSON.skip_ws rest)); [|discriminate].
  intros H. injection H as <-.
  exact (proj1 (parse_canonical _) _ _ _ E).
Qed.

(** X14: the record [replaceKeys] returns goes to JSON text and back
    unchanged: [JSON.stringify] prints it and [JSON.parse] reads from that
    text the very same record.  So the text given with [messageErr] holds
    the record in full. *)
Theorem replaceKeys_record_round_trip (v r : value) :
  replaceKeys v = inr r ->
  exists t, JSON.stringify r = Some t /\ JSON.parse t = Some r
            /\ Darwin.stringified r = VStr t.
Proof.
  intros H. apply replaceKeys_canonical in H.
  exists (Transform.text r).
  assert (Hs : JSON.stringify r = Some (Transform.text r)).
  { unfold Transform.text. destruct (JSON.stringify r) eqn:E; [reflexivity|].
    apply stringify_none in E. now apply canonical_defined in E. }
  repeat split.
  - exact Hs.
  - rewrite parse_stringify by now apply canonical_well_formed.
    now rewrite reparsed_canonical.
  - unfold Darwin.stringified. now rewrite Hs.
Qed.

Lemma replaceKeys_record_round_trip_witness :
  exists t, JSON.stringify Example.record = Some t
            /\ JSON.parse t = Some Example.record
            /\ Darwin.stringified Example.record = VStr t.
Proof.
  exact (replaceKeys_record_round_trip Example.converted Example.record eq_refl).
Defined.

(** ** The listeners on the channel, and arrays *)

Lemma on_channel_forwards {world : Type} (ev : channel_event)
      (this : Darwin.darwin) (w : world) :
  Darwin.on_channel ev (this, w)
  = Darwin.emit (fst (forwarded ev)) (snd (forwarded ev)) (this, w).
Proof. now destruct ev. Qed.

(** X15: the four listeners on the channel pass on what the channel tells,
    each under its own name and with its own arguments, in order, and
    nothing else; no collaborator is called and the channel, the
    subscriptions and the listeners stay as they are.  This holds when the
    consumer listens to [error] or the channel tells no error.  When it
    tells one that nobody listens to, what it told before is passed on,
    the first argument of the error is thrown when it is an [Error], and
    what the channel tells after it is not passed on in that run. *)
Theorem channel_events_forwarded {world : Type} (events : list channel_event) :
  forall (this : Darwin.darwin) (w : world),
    (Darwin.listens this "error" = true \/ forallb calm events = true ->
     exists this',
       on_channel_events events (this, w) = (inr tt, (this', w))
       /\ Darwin.emitted this' = (Darwin.emitted this ++ map forwarded events)%list
       /\ Darwin._channel this' = Darwin._channel this
       /\ Darwin.subscriptions this' = Darwin.subscriptions this
       /\ Darwin.listeners this' = Darwin.listeners this)
    /\ (forall before e server rest,
          Darwin.listens this "error" = false ->
          forallb calm before = true ->
          events = (before ++ ChannelError (VError e) server :: rest)%list ->
          exists this',
            on_channel_events events (this, w) = (inl e, (this', w))
            /\ Darwin.emitted this' = (Darwin.emitted this ++ map forwarded before)%list).
Proof.
  induction events as [|ev events IH]; intros this w; split.
  - intros _. exists this. cbn. rewrite app_nil_r. repeat split.
  - intros [|? before] e server rest _ _ H; discriminate H.
  - intros H. cbn [on_channel_events]. unfold Eff.bind.
    rewrite on_channel_forwards.
    assert (Hemit : Darwin.emit (fst (forwarded ev)) (snd (forwarded ev)) (this, w)
                    = (inr tt,
                       (Darwin.emitted_as this (fst (forwarded ev)) (snd (forwarded ev)),
                        w))).
    { destruct H as [H|H].
      - destruct ev; try (now apply emit_event). now apply emit_error_heard.
      - destruct ev; try discriminate H; now apply emit_event. }
    rewrite Hemit.
    destruct (proj1 (IH (Darwin.emitted_as this (fst (forwarded ev))
                           (snd (forwarded ev))) w))
      as (this' & -> & Hlog & Hc & Hs & Hl).
    { destruct H as [H|H]; [now left | right].
      cbn [forallb] in H. now apply andb_true_iff in H as [_ H]. }
    exists this'. repeat split; try assumption.
    rewrite Hlog. cbn [Darwin.emitted Darwin.emitted_as map].
    rewrite <- app_assoc. now destruct (forwarded ev).
  - intros before e server rest Hdeaf Hcalm Hevents.
    cbn [on_channel_events]. unfold Eff.bind. rewrite on_channel_forwards.
    destruct before as [|ev' before].
    + cbn [app] in Hevents. injection Hevents as -> ->.
      cbn [forwarded fst snd]. rewrite (emit_error_unheard _ _ _ Hdeaf).
      exists this. cbn. now rewrite app_nil_r.
    + cbn [app] in Hevents. injection Hevents as -> ->.
      cbn [forallb] in Hcalm. apply andb_true_iff in Hcalm as [Hev Hcalm].
      rewrite emit_event by (now destruct ev').
      destruct (proj2 (IH (Darwin.emitted_as this (fst (forwarded ev'))
                             (snd (forwarded ev'))) w)
                  before e server rest Hdeaf Hcalm eq_refl)
        as (this' & -> & Hlog).
      exists this'. split; [reflexivity|].
      rewrite Hlog. cbn [Darwin.emitted Darwin.emitted_as map].
      rewrite <- app_assoc. now destruct (forwarded ev').
Qed.

(** The channel connects, fails and connects again: with a listener the
    three events are passed on; without one the failure is thrown. *)
Lemma channel_events_forwarded_witness :
  (exists this',
      on_channel_events
        [Connecting; Connect; ChannelError (VError Example.failure) VNull; Connecting]
        (Example.listening, 0)
      = (inr tt, (this', 0))
      /\ Darwin.emitted this'
         = (Darwin.emitted Example.listening
            ++ map forwarded
                 [Connecting; Connect; ChannelError (VError Example.failure) VNull;
                  Connecting])%list
      /\ Darwin._channel this' = Darwin._channel Example.listening
      /\ Darwin.subscriptions this' = Darwin.subscriptions Example.listening
      /\ Darwin.listeners this' = Darwin.listeners Example.listening)
  /\ (exists this',
         on_channel_events
           [Connecting; Connect; ChannelError (VError Example.failure) VNull; Connecting]
           (Example.fresh, 0)
         = (inl Example.failure, (this', 0))
         /\ Darwin.emitted this'
            = (Darwin.emitted Example.fresh ++ map forwarded [Connecting; Connect])%list).
Proof.
  split.
  - exact (proj1 (channel_events_forwarded
                    [Connecting; Connect; ChannelError (VError Example.failure) VNull;
                     Connecting] Example.listening 0) (or_introl eq_refl)).
  - exact (proj2 (channel_events_forwarded
                    [Connecting; Connect; ChannelError (VError Example.failure) VNull;
                     Connecting] Example.fresh 0)
             [Connecting; Connect] Example.failure VNull [Connecting]
             eq_refl eq_refl eq_refl).
Defined.

(** X16: [replaceKeys] works through an array element by element: the
    array it returns has as many elements, in the same order, and each is
    what [replaceKeys] returns for the element in its place, or [null]
    where that element is [undefined]. *)
Theorem replaceKeys_elementwise (l : list value) :
  Transform.well_formed (VArr l) = true ->
  exists l', replaceKeys (VArr l) = inr (VArr l') /\ Forall2 element_result l l'.
Proof.
  intros Hwf.
  exists (map Transform.transformed l). split.
  - rewrite replaceKeys_transformed; [| discriminate | exact Hwf].
    unfold Transform.transformed. cbn [Transform.map_strings Transform.reparsed].
    now rewrite map_map.
  - cbn [Transform.well_formed] in Hwf. rewrite forallb_forall in Hwf.
    induction l as [|x l IH]; [constructor|].
    cbn [map]. constructor.
    + assert (Hx : Transform.well_formed x = true) by (apply Hwf; now left).
      destruct x; try reflexivity; unfold element_result;
        apply replaceKeys_transformed; try discriminate; exact Hx.
    + apply IH. intros y Hy. apply Hwf. now right.
Qed.

Lemma replaceKeys_elementwise_witness :
  exists l',
    replaceKeys (VArr [VUndefined; VObj [("ns2:tpl", VStr "WATFDJ")]]) = inr (VArr l')
    /\ Forall2 element_result [VUndefined; VObj [("ns2:tpl", VStr "WATFDJ")]] l'.
Proof.
  exact (replaceKeys_elementwise [VUndefined; VObj [("ns2:tpl", VStr "WATFDJ")]] eq_refl).
Defined.
